(** * mywallet: the Convex sync hook (src/hooks/use-convex-sync.ts)

    A shallow embedding of the merge engine [mergeWalletData], of the salt
    derivation [generateConsistentSalt] and of the sync orchestrator
    ([syncToConvex], [syncFromConvex], [disableSync], [performSmartSync]),
    followed by the properties the specification states about them.

    Modelling conventions.
    - A JS string is the Rocq [string] holding its UTF-8 bytes.
    - A JS number is an integer [Z]: the hook only compares numbers (amounts
      and millisecond timestamps) and never does arithmetic on them; NaN is
      not modelled.
    - An optional property is an [option]; [None] is [undefined].
    - A thrown exception is the [None] of an [option] result where the
      function has no handler of its own ([mergeWalletData]).
    - Both arguments of the merge are objects and the entries of their
      arrays are objects: a [null] payload or a [null] array entry, on which
      the merge throws a TypeError as well, is not a value of [snapshot]. *)

From Stdlib Require Import ZArith List Strings.Byte DecimalString.
From stdpp Require Import base option list strings gmap.

Local Open Scope string_scope.
Local Open Scope list_scope.
Local Open Scope Z_scope.

(** ** Entities

    The collections of a snapshot hold objects typed [any]; the merge reads
    the properties below and nothing else. *)
Module Item.
Record t := mk {
  id : string;
  lastModified : option Z;
  timeEquivalent : option Z;
  createdAt : option Z;
  isDefault : bool;
  name : string;
  description : string;
  amount : Z
}.
End Item.

#[global] Instance item_eq_dec : EqDecision Item.t.
Proof. solve_decision. Defined.

(** [a || b] on numbers that may be undefined: [a] when it is truthy (defined
    and not zero), else [b]. *)
Definition truthy_num (a : option Z) : option Z :=
  match a with
  | Some z => if decide (z = 0) then None else Some z
  | None => None
  end.

Definition num_or (a : option Z) (b : Z) : Z := default b (truthy_num a).

(** Line 327:
    [item?.lastModified || item?.timeEquivalent || item?.createdAt || 0]. *)
Definition getTimestamp (item : Item.t) : Z :=
  match truthy_num (Item.lastModified item) with
  | Some z => z
  | None =>
      match truthy_num (Item.timeEquivalent item) with
      | Some z => z
      | None => num_or (Item.createdAt item) 0
      end
  end.

(** The human-readable lines pushed on [mergeLog], one constructor per
    template string, carrying the interpolated values. *)
Inductive log_entry :=
| AddedTransaction (description : string) (amount : Z)
| UpdatedTransaction (description : string)
| AddedBudget (name : string)
| UpdatedBudget (name : string)
| AddedGoal (name : string)
| UpdatedGoal (name : string)
| AddedUserCategory (name : string)
| UpdatedUserCategory (name : string)
| AddedDebtAccount (name : string)
| UpdatedDebtAccount (name : string)
| AddedCreditAccount (name : string)
| UpdatedCreditAccount (name : string)
| AddedDebtCreditTransaction (description : string)
| UpdatedEmergencyFund (remoteFund localFund : Z)
| KeptLocalEmergencyFund (localFund remoteFund : Z)
| MergedUserProfile.

#[global] Instance log_entry_eq_dec : EqDecision log_entry.
Proof. solve_decision. Defined.

(** [new Map(items.map(t => [t.id, t]))]: entries are inserted in order, a
    later entry with the same id replaces an earlier one. *)
Definition idMap (items : list Item.t) : gmap string Item.t :=
  foldl (λ m t, <[Item.id t := t]> m) ∅ items.

(** [arr.findIndex(x => x.id === id)]; [None] is the [-1] of JS. *)
Definition findIndex (id : string) (arr : list Item.t) : option nat :=
  fst <$> list_find (λ x, Item.id x = id) arr.

(** One iteration of the [for (const remote of ...)] loops of lines 347-363,
    376-387, 400-411, 428-439, 454-469 and 482-497, which are the same code
    up to the text logged. The state is the array being built and the lines
    logged so far. *)
Definition mergeStep (localMap : gmap string Item.t)
    (added updated : Item.t → log_entry)
    (st : list Item.t * list log_entry) (remote : Item.t)
  : list Item.t * list log_entry :=
  let '(merged, mergeLog) := st in
  match localMap !! Item.id remote with
  | None => (merged ++ [remote], mergeLog ++ [added remote])
  | Some localVersion =>
      if decide (getTimestamp localVersion < getTimestamp remote) then
        match findIndex (Item.id remote) merged with
        | Some index => (<[index := remote]> merged, mergeLog ++ [updated remote])
        | None => (merged, mergeLog)
        end
      else (merged, mergeLog)
  end.

Definition mergeById (added updated : Item.t → log_entry)
    (localItems remoteItems : list Item.t) : list Item.t * list log_entry :=
  foldl (mergeStep (idMap localItems) added updated) (localItems, []) remoteItems.

(** Lines 510-517: the loop over the debt/credit transactions only pushes. *)
Definition appendStep (localMap : gmap string Item.t)
    (st : list Item.t * list log_entry) (remote : Item.t)
  : list Item.t * list log_entry :=
  let '(merged, mergeLog) := st in
  match localMap !! Item.id remote with
  | None => (merged ++ [remote],
             mergeLog ++ [AddedDebtCreditTransaction (Item.description remote)])
  | Some _ => (merged, mergeLog)
  end.

Definition mergeAppendOnly (localItems remoteItems : list Item.t)
  : list Item.t * list log_entry :=
  foldl (appendStep (idMap localItems)) (localItems, []) remoteItems.

(** Lines 416-444: user-created categories are merged by id; the local
    default categories are put back in front, remote defaults are dropped. *)
Definition mergeCategories (localCategories remoteCategories : list Item.t)
  : list Item.t * list log_entry :=
  let localUserCategories := filter (λ c, Item.isDefault c = false) localCategories in
  let remoteUserCategories := filter (λ c, Item.isDefault c = false) remoteCategories in
  let '(mergedCategories, mergeLog) :=
    mergeById (λ r, AddedUserCategory (Item.name r))
              (λ r, UpdatedUserCategory (Item.name r))
              localUserCategories remoteUserCategories in
  let defaultCategories := filter (λ c, Item.isDefault c = true) localCategories in
  (defaultCategories ++ mergedCategories, mergeLog).

(** ** Snapshots

    A snapshot is an object typed [any] (the remote one is the output of
    [JSON.parse]), so a collection property can be missing, hold an array, or
    hold something that is not an array; of the latter only its truthiness
    matters to the code. *)
Inductive coll :=
| Absent
| NotArray (truthy : bool)
| Items (items : list Item.t).

#[global] Instance coll_eq_dec : EqDecision coll.
Proof. solve_decision. Defined.

Module Profile.
(** The user profile: its [lastModified] and every other property, by
    name. *)
Record t := mk {
  fields : gmap string string;
  lastModified : option Z
}.
End Profile.

Record snapshot := Snapshot {
  userProfile : option Profile.t;
  transactions : coll;
  budgets : coll;
  goals : coll;
  debtAccounts : coll;
  creditAccounts : coll;
  debtCreditTransactions : coll;
  categories : coll;
  emergencyFund : option Z;
  exportedAt : Z
}.

Record merge_result := MergeResult {
  merged : snapshot;
  conflicts : list Item.t;
  mergeLog : list log_entry
}.

(** The seven collection properties of a snapshot. *)
Inductive collection :=
| Transactions | Budgets | Goals | Categories
| DebtAccounts | CreditAccounts | DebtCreditTransactions.

Definition field (c : collection) (s : snapshot) : coll :=
  match c with
  | Transactions => transactions s
  | Budgets => budgets s
  | Goals => goals s
  | Categories => categories s
  | DebtAccounts => debtAccounts s
  | CreditAccounts => creditAccounts s
  | DebtCreditTransactions => debtCreditTransactions s
  end.

(** The entries a collection property holds (none unless it is an array). *)
Definition entries (c : coll) : list Item.t :=
  match c with Items l => l | _ => [] end.

Definition ids (l : list Item.t) : list string := Item.id <$> l.

(** [localData.xs || []] followed by a call of [.map] or [.filter] on it: a
    truthy value that is not an array has no such method and the call throws
    a TypeError. *)
Definition localArray (c : coll) : option (list Item.t) :=
  match c with
  | Items l => Some l
  | Absent | NotArray false => Some []
  | NotArray true => None
  end.

(** [if (remoteData.xs && Array.isArray(remoteData.xs)) { ... merged.xs = ... }]. *)
Definition mergeCollection
    (merge : list Item.t → list Item.t → list Item.t * list log_entry)
    (localColl remoteColl : coll) : option (coll * list log_entry) :=
  match remoteColl with
  | Items remoteItems =>
      localItems ← localArray localColl;
      let '(mergedItems, lines) := merge localItems remoteItems in
      Some (Items mergedItems, lines)
  | Absent | NotArray _ => Some (localColl, [])
  end.

(** Lines 522-533. *)
Definition mergeEmergencyFund (localEF remoteEF : option Z)
  : option Z * list log_entry :=
  match remoteEF with
  | None => (localEF, [])
  | Some remoteFund =>
      let localFund := num_or localEF 0 in
      if decide (localFund < remoteFund) then
        (Some remoteFund, [UpdatedEmergencyFund remoteFund localFund])
      else if decide (remoteFund < localFund) then
        (localEF, [KeptLocalEmergencyFund localFund remoteFund])
      else (localEF, [])
  end.

(** Lines 535-547: remote properties overlay the local ones, [lastModified] is
    the larger of the two. *)
Definition mergeUserProfile (localProfile remoteProfile : option Profile.t)
  : option Profile.t * list log_entry :=
  match remoteProfile with
  | None => (localProfile, [])
  | Some r =>
      (Some {| Profile.fields :=
                 Profile.fields r ∪ from_option Profile.fields ∅ localProfile;
               Profile.lastModified :=
                 Some (Z.max (num_or (localProfile ≫= Profile.lastModified) 0)
                             (num_or (Profile.lastModified r) 0)) |},
       [MergedUserProfile])
  end.

(** Lines 321-550. [merged] starts as a copy of [localData]; each block then
    overwrites one property and pushes its lines on the shared [mergeLog]. *)
Definition mergeWalletData (localData remoteData : snapshot) : option merge_result :=
  '(mTransactions, log1) ←
    mergeCollection
      (mergeById (λ r, AddedTransaction (Item.description r) (Item.amount r))
                 (λ r, UpdatedTransaction (Item.description r)))
      (transactions localData) (transactions remoteData);
  '(mBudgets, log2) ←
    mergeCollection
      (mergeById (λ r, AddedBudget (Item.name r)) (λ r, UpdatedBudget (Item.name r)))
      (budgets localData) (budgets remoteData);
  '(mGoals, log3) ←
    mergeCollection
      (mergeById (λ r, AddedGoal (Item.name r)) (λ r, UpdatedGoal (Item.name r)))
      (goals localData) (goals remoteData);
  '(mCategories, log4) ←
    mergeCollection mergeCategories (categories localData) (categories remoteData);
  '(mDebtAccounts, log5) ←
    mergeCollection
      (mergeById (λ r, AddedDebtAccount (Item.name r))
                 (λ r, UpdatedDebtAccount (Item.name r)))
      (debtAccounts localData) (debtAccounts remoteData);
  '(mCreditAccounts, log6) ←
    mergeCollection
      (mergeById (λ r, AddedCreditAccount (Item.name r))
                 (λ r, UpdatedCreditAccount (Item.name r)))
      (creditAccounts localData) (creditAccounts remoteData);
  '(mDebtCreditTransactions, log7) ←
    mergeCollection mergeAppendOnly
      (debtCreditTransactions localData) (debtCreditTransactions remoteData);
  let '(mEmergencyFund, log8) :=
    mergeEmergencyFund (emergencyFund localData) (emergencyFund remoteData) in
  let '(mUserProfile, log9) :=
    mergeUserProfile (userProfile localData) (userProfile remoteData) in
  Some {| merged :=
            {| userProfile := mUserProfile;
               transactions := mTransactions;
               budgets := mBudgets;
               goals := mGoals;
               debtAccounts := mDebtAccounts;
               creditAccounts := mCreditAccounts;
               debtCreditTransactions := mDebtCreditTransactions;
               categories := mCategories;
               emergencyFund := mEmergencyFund;
               exportedAt := exportedAt localData |};
          conflicts := [];
          mergeLog := log1 ++ log2 ++ log3 ++ log4 ++ log5 ++ log6 ++ log7
                        ++ log8 ++ log9 |}.

(** ** The closed form of the merge loop

    [y] overrides the local entry [x]: same id, strictly larger timestamp. *)
Definition overrides (x y : Item.t) : Prop :=
  Item.id y = Item.id x ∧ getTimestamp x < getTimestamp y.

#[global] Instance overrides_dec x y : Decision (overrides x y).
Proof. unfold overrides. apply _. Defined.

(** What the loop leaves at the place of the local entry [x]: the last
    remote entry that overrides it, or [x] itself when there is none. *)
Definition resolve (remoteItems : list Item.t) (x : Item.t) : Item.t :=
  default x (last (filter (overrides x) remoteItems)).

(** The merge applied to each collection by [mergeWalletData]. *)
Definition mergeOf (c : collection)
  : list Item.t → list Item.t → list Item.t * list log_entry :=
  match c with
  | Transactions =>
      mergeById (λ r, AddedTransaction (Item.description r) (Item.amount r))
                (λ r, UpdatedTransaction (Item.description r))
  | Budgets =>
      mergeById (λ r, AddedBudget (Item.name r)) (λ r, UpdatedBudget (Item.name r))
  | Goals =>
      mergeById (λ r, AddedGoal (Item.name r)) (λ r, UpdatedGoal (Item.name r))
  | Categories => mergeCategories
  | DebtAccounts =>
      mergeById (λ r, AddedDebtAccount (Item.name r))
                (λ r, UpdatedDebtAccount (Item.name r))
  | CreditAccounts =>
      mergeById (λ r, AddedCreditAccount (Item.name r))
                (λ r, UpdatedCreditAccount (Item.name r))
  | DebtCreditTransactions => mergeAppendOnly
  end.

(** The call throws: some local collection is a truthy non-array while the
    remote side carries that collection as an array. *)
Definition throws (localData remoteData : snapshot) : Prop :=
  ∃ c, field c localData = NotArray true ∧ ∃ l, field c remoteData = Items l.

(** Lines about the emergency fund. *)
Definition isFundLine (e : log_entry) : bool :=
  match e with
  | UpdatedEmergencyFund _ _ | KeptLocalEmergencyFund _ _ => true
  | _ => false
  end.

(** A line of the log that tells which side's emergency fund was kept. *)
Definition recordsFundWinner (mergeLog : list log_entry) : Prop :=
  ∃ e, e ∈ mergeLog ∧ isFundLine e = true.

(** The timestamp as the specification words it, for comparison with
    [getTimestamp]: [lastModified] if present, else [timeEquivalent], else
    [createdAt], else zero. *)
Definition statedTimestamp (item : Item.t) : Z :=
  match Item.lastModified item with
  | Some z => z
  | None =>
      match Item.timeEquivalent item with
      | Some z => z
      | None => default 0 (Item.createdAt item)
      end
  end.

(** The entry kept for a local [x] and a remote [y] with the same id. *)
Definition winner (x y : Item.t) : Item.t :=
  if decide (getTimestamp x < getTimestamp y) then y else x.

(** The collections merged by id and timestamp. *)
Definition timestamped (c : collection) : Prop := c ≠ DebtCreditTransactions.

(** The categories as a self-merge returns them: the default ones first,
    then the user-created ones, each group in its original order. *)
Definition defaultsFirst (c : coll) : coll :=
  match c with
  | Items l => Items (filter (λ c, Item.isDefault c = true) l ++
                      filter (λ c, Item.isDefault c = false) l)
  | Absent | NotArray _ => c
  end.

(** The profile as a self-merge returns it: [lastModified] is always set. *)
Definition stamped (p : Profile.t) : Profile.t :=
  {| Profile.fields := Profile.fields p;
     Profile.lastModified := Some (default 0 (Profile.lastModified p)) |}.

(** ** The salt *)

(** [new TextEncoder().encode(s)]: the UTF-8 bytes of [s]. *)
Definition encode (s : string) : list byte := String.list_byte_of_string s.

(** Lines 127-135; [data.slice(0, 32)] keeps the bytes at indices 0 to 31
    that exist. *)
Definition generateConsistentSalt (userId userEmail : string) : list byte :=
  let userData := userId +:+ "_" +:+ userEmail +:+ "_convex_sync_salt" in
  let data := encode userData in
  take 32 data.

(** ** The orchestrator: state *)

Module User.
Record t := mk { id : string; email : string; name : string }.
End User.

Module SyncState.
Record t := mk {
  isEnabled : bool;
  isPaused : bool;
  isSyncing : bool;
  lastSyncTime : option Z;
  error : option string
}.
(** Lines 32-38, the value [useState] starts from. *)
Definition initial : t := mk false false false None None.
End SyncState.

(** The document returned by the [getLatestWalletData] query, with the two
    properties the hook reads. *)
Module Remote.
Record t := mk { encryptedData : string; lastModified : option Z }.
End Remote.

(** What the async functions resolve to: [{ success, error, message, data }],
    where [data] stands for [data], [mergeLog] and [conflicts] together. *)
Module Result.
Record t := mk {
  success : bool;
  error : option string;
  message : option string;
  data : option merge_result
}.
Definition ok : t := mk true None None None.
Definition fail (e : string) : t := mk false (Some e) None None.
End Result.

(** Calls that leave the hook, in the order they are made. *)
Inductive call :=
| StoreWalletData (userId deviceId encryptedData dataHash : string)
| UpdateSyncMetadata (userId deviceId deviceName : string)
| ImportData (data : snapshot)
| Toast (title : string).

(** What a render of the hook closes over: the functions created by one
    render keep reading these values however the state changes later. *)
Record render := Render {
  user : option User.t;
  isAuthenticated : bool;
  authLoading : bool;
  syncState : SyncState.t;
  wallet : snapshot;
  getLatestWalletData : option Remote.t
}.

(** What the functions change: the React state behind [setSyncState], the
    browser's [localStorage], and the calls made so far. *)
Record world := World {
  state : SyncState.t;
  localStorage : gmap string string;
  calls : list call
}.

(** Functions of the platform and of [@/lib/security] that the hook calls and
    that are not part of it. A rejected promise or a thrown exception is
    [None]. *)
Class Platform := {
  CryptoKey : Type;
  deriveKeyFromPin : string → list byte → option CryptoKey;
  encryptData : string → CryptoKey → option string;
  decryptData : string → CryptoKey → option string;
  generateIntegrityHash : string → option string;
  JSON_stringify : snapshot → string;
  JSON_parse : string → option snapshot;
  toString : Z → string;
  parseInt : string → option Z
}.

(** What the environment answers during one upload. *)
Record uploadEnv := UploadEnv {
  exportTime : Z;
  freshDeviceId : string;
  userAgent : string;
  storeOutcome : option string;
  metadataOutcome : option string;
  uploadTime : Z
}.

Inductive importOutcome :=
| ImportResolves (success : bool)
| ImportThrows (message : string).

(** What the environment answers during one download. *)
Record downloadEnv := DownloadEnv {
  localExportTime : Z;
  importAnswer : importOutcome;
  downloadTime : Z
}.

(** ** The orchestrator: effects

    A computation changes the world and either returns or throws an error
    with a message; what it changed before throwing stays changed. *)
Inductive outcome (A : Type) :=
| Returned (a : A)
| Thrown (message : string).
Arguments Returned {A} a.
Arguments Thrown {A} message.

Definition action (A : Type) : Type := world → outcome A * world.

#[global] Instance action_ret : MRet action := λ A a w, (Returned a, w).

#[global] Instance action_bind : MBind action := λ A B k m w,
  match m w with
  | (Returned a, w') => k a w'
  | (Thrown e, w') => (Thrown e, w')
  end.

Definition throw {A} (message : string) : action A := λ w, (Thrown message, w).

(** [try { body } catch (error) { handler(error.message) }]. *)
Definition tryCatch {A} (body : action A) (handler : string → action A)
  : action A := λ w,
  match body w with
  | (Returned a, w') => (Returned a, w')
  | (Thrown e, w') => handler e w'
  end.

(** [await p] for a promise that resolves with [Some a] or rejects. *)
Definition await {A} (p : option A) (message : string) : action A :=
  match p with Some a => mret a | None => throw message end.

Definition setSyncState (f : SyncState.t → SyncState.t) : action unit := λ w,
  (Returned (), World (f (state w)) (localStorage w) (calls w)).

Definition getItem (k : string) : action (option string) := λ w,
  (Returned (localStorage w !! k), w).

Definition setItem (k v : string) : action unit := λ w,
  (Returned (), World (state w) (<[k := v]> (localStorage w)) (calls w)).

Definition removeItem (k : string) : action unit := λ w,
  (Returned (), World (state w) (delete k (localStorage w)) (calls w)).

Definition perform (c : call) : action unit := λ w,
  (Returned (), World (state w) (localStorage w) (calls w ++ [c])).

(** A mutation of the remote store: the call is made, then the promise
    resolves or rejects with a message. *)
Definition mutation (c : call) (answer : option string) : action unit :=
  perform c;;
  match answer with None => mret () | Some message => throw message end.

Definition toast (title : string) : action unit := perform (Toast title).

(** [a || b] on strings: the empty string is falsy, like [undefined]. *)
Definition str_or (a : option string) (b : string) : string :=
  match a with
  | Some s => if decide (s = "") then b else s
  | None => b
  end.

Definition includes (s pattern : string) : bool :=
  bool_decide (is_Some (String.index 0 pattern s)).

(** Lines 91-124. *)
Definition getDeviceInfo (env : uploadEnv) : action (string * string) :=
  storedId ← getItem "convex_device_id";
  deviceId ←
    (if decide (str_or storedId "" = "") then
       setItem "convex_device_id" (freshDeviceId env);; mret (freshDeviceId env)
     else mret (str_or storedId ""));
  storedName ← getItem "convex_device_name";
  deviceName ←
    (if decide (str_or storedName "" = "") then
       let ua := userAgent env in
       let browser :=
         if includes ua "Chrome" then "Chrome"
         else if includes ua "Firefox" then "Firefox"
         else if includes ua "Safari" && negb (includes ua "Chrome") then "Safari"
         else if includes ua "Edge" then "Edge"
         else "Browser" in
       let os :=
         if includes ua "Windows" then "Windows"
         else if includes ua "Mac" then "macOS"
         else if includes ua "Linux" then "Linux"
         else if includes ua "Android" then "Android"
         else if includes ua "iPhone" || includes ua "iPad" then "iOS"
         else "Device" in
       let generated := browser +:+ " on " +:+ os in
       setItem "convex_device_name" generated;; mret generated
     else mret (str_or storedName ""));
  mret (deviceId, deviceName).

(** The message of the TypeError raised by a method call on a value that has
    no such method; its text depends on the engine, only that it is not empty
    matters. *)
Definition typeError : string := "TypeError".

Section Orchestrator.
Context {platform : Platform}.

(** Lines 138-150. *)
Definition encryptWalletData (u : User.t) (data : snapshot) (password : string)
  : action (string * string) :=
  tryCatch
    (let dataString := JSON_stringify data in
     let salt := generateConsistentSalt (User.id u) (User.email u) in
     key ← await (deriveKeyFromPin password salt) "deriveKeyFromPin";
     encrypted ← await (encryptData dataString key) "encryptData";
     hash ← await (generateIntegrityHash dataString) "generateIntegrityHash";
     mret (encrypted, hash))
    (λ _, throw "Encryption failed").

(** Lines 153-163. *)
Definition decryptWalletData (u : User.t) (encrypted password : string)
  : action snapshot :=
  tryCatch
    (let salt := generateConsistentSalt (User.id u) (User.email u) in
     key ← await (deriveKeyFromPin password salt) "deriveKeyFromPin";
     decrypted ← await (decryptData encrypted key) "decryptData";
     await (JSON_parse decrypted) "JSON.parse")
    (λ _, throw "Decryption failed").

Definition syncPasswordOf (u : User.t) (password : option string) : string :=
  str_or password ("convex_sync_" +:+ User.id u +:+ "_" +:+ User.email u).

(** Lines 252-318. *)
Definition syncToConvex (r : render) (password : option string)
    (env : uploadEnv) : action Result.t :=
  match user r with
  | Some u =>
      if isAuthenticated r && SyncState.isEnabled (syncState r) then
        let syncPassword := syncPasswordOf u password in
        tryCatch
          (setSyncState (λ prev,
             SyncState.mk (SyncState.isEnabled prev) (SyncState.isPaused prev)
                          true (SyncState.lastSyncTime prev) None);;
           userCreatedCategories ←
             match categories (wallet r) with
             | Items l => mret (filter (λ cat, Item.isDefault cat = false) l)
             | Absent | NotArray _ => throw typeError
             end;
           let walletData :=
             {| userProfile := userProfile (wallet r);
                transactions := transactions (wallet r);
                budgets := budgets (wallet r);
                goals := goals (wallet r);
                debtAccounts := debtAccounts (wallet r);
                creditAccounts := creditAccounts (wallet r);
                debtCreditTransactions := Absent;
                categories := Items userCreatedCategories;
                emergencyFund := emergencyFund (wallet r);
                exportedAt := exportTime env |} in
           '(encrypted, hash) ← encryptWalletData u walletData syncPassword;
           '(deviceId, deviceName) ← getDeviceInfo env;
           mutation (StoreWalletData (User.id u) deviceId encrypted hash)
                    (storeOutcome env);;
           mutation (UpdateSyncMetadata (User.id u) deviceId deviceName)
                    (metadataOutcome env);;
           let now := uploadTime env in
           setItem "convex_last_sync_time" (toString now);;
           setSyncState (λ prev,
             SyncState.mk (SyncState.isEnabled prev) (SyncState.isPaused prev)
                          false (Some now) (SyncState.error prev));;
           mret Result.ok)
          (λ message,
             setSyncState (λ prev,
               SyncState.mk (SyncState.isEnabled prev) (SyncState.isPaused prev)
                            false (SyncState.lastSyncTime prev)
                            (Some (str_or (Some message) "Sync failed")));;
             mret (Result.fail message))
      else mret (Result.fail "Sync not enabled or user not authenticated")
  | None => mret (Result.fail "Sync not enabled or user not authenticated")
  end.

(** Lines 166-216. The wait for [authLoading] only spends time; the inner
    [try] around [syncToConvex] and the outer [catch] never fire, as nothing
    in the body throws. *)
Definition enableSync (r : render) (env : uploadEnv) : action Result.t :=
  match user r with
  | Some u =>
      if isAuthenticated r then
        setSyncState (λ prev,
          SyncState.mk (SyncState.isEnabled prev) (SyncState.isPaused prev)
                       true (SyncState.lastSyncTime prev) None);;
        let syncPassword := "convex_sync_" +:+ User.id u +:+ "_" +:+ User.email u in
        syncToConvex r (Some syncPassword) env;;
        setItem "convex_sync_enabled" "true";;
        setSyncState (λ prev,
          SyncState.mk true (SyncState.isPaused prev) false
                       (SyncState.lastSyncTime prev) (SyncState.error prev));;
        mret Result.ok
      else mret (Result.fail "User not authenticated")
  | None => mret (Result.fail "User not authenticated")
  end.

(** Lines 219-249; nothing in the [try] throws. *)
Definition disableSync : action Result.t :=
  removeItem "convex_sync_enabled";;
  removeItem "convex_sync_password";;
  removeItem "convex_last_sync_time";;
  setSyncState (λ _, SyncState.mk false false false None None);;
  toast "Convex Sync Disabled";;
  mret Result.ok.

(** [await importData(merged)], a function of the wallet data context. *)
Definition importData (data : snapshot) (answer : importOutcome) : action bool :=
  perform (ImportData data);;
  match answer with
  | ImportResolves b => mret b
  | ImportThrows message => throw message
  end.

(** Lines 593-604: the local snapshot handed to the merge. *)
Definition localDataOf (walletData : snapshot) (now : Z) : snapshot :=
  {| userProfile := userProfile walletData;
     transactions := transactions walletData;
     budgets := budgets walletData;
     goals := goals walletData;
     debtAccounts := debtAccounts walletData;
     creditAccounts := creditAccounts walletData;
     debtCreditTransactions := debtCreditTransactions walletData;
     categories := categories walletData;
     emergencyFund := emergencyFund walletData;
     exportedAt := now |}.

(** What [decryptWalletData] resolves to, when it does. *)
Definition decrypted (u : User.t) (encrypted password : string) : option snapshot :=
  key ← deriveKeyFromPin password
          (generateConsistentSalt (User.id u) (User.email u));
  text ← decryptData encrypted key;
  JSON_parse text.

(** Lines 553-668. *)
Definition syncFromConvex (r : render) (password : option string)
    (envE : uploadEnv) (env : downloadEnv) : action Result.t :=
  match user r with
  | Some u =>
      if isAuthenticated r then
        enableResult ←
          (if SyncState.isEnabled (syncState r) then mret Result.ok
           else enableSync r envE);
        if negb (Result.success enableResult) then
          mret (Result.fail "Failed to enable sync")
        else
          let syncPassword := syncPasswordOf u password in
          tryCatch
            (setSyncState (λ prev,
               SyncState.mk (SyncState.isEnabled prev) (SyncState.isPaused prev)
                            true (SyncState.lastSyncTime prev) None);;
             match getLatestWalletData r with
             | None =>
                 setSyncState (λ prev,
                   SyncState.mk (SyncState.isEnabled prev)
                                (SyncState.isPaused prev) false
                                (SyncState.lastSyncTime prev)
                                (SyncState.error prev));;
                 mret (Result.mk true None (Some "No remote data to sync") None)
             | Some latestData =>
                 remoteData ←
                   decryptWalletData u (Remote.encryptedData latestData)
                                     syncPassword;
                 let localData := localDataOf (wallet r) (localExportTime env) in
                 res ← await (mergeWalletData localData remoteData) typeError;
                 tryCatch
                   (success ← importData (merged res) (importAnswer env);
                    if (success : bool) then
                      let now := downloadTime env in
                      setItem "convex_last_sync_time" (toString now);;
                      setSyncState (λ prev,
                        SyncState.mk (SyncState.isEnabled prev)
                                     (SyncState.isPaused prev) false (Some now)
                                     (SyncState.error prev));;
                      (if decide (mergeLog res = []) then mret ()
                       else toast "Smart Sync Complete");;
                      mret (Result.mk true None None (Some res))
                    else
                      toast "Sync Warning";;
                      mret (Result.fail "Import failed"))
                   (λ _, toast "Sync Error";; mret (Result.fail "Import failed"))
             end)
            (λ message,
               setSyncState (λ prev,
                 SyncState.mk (SyncState.isEnabled prev) (SyncState.isPaused prev)
                              false (SyncState.lastSyncTime prev)
                              (Some (str_or (Some message) "Download failed")));;
               mret (Result.fail (str_or (Some message) "Download failed")))
      else mret (Result.fail "User not authenticated")
  | None => mret (Result.fail "User not authenticated")
  end.

(** How an automatic cycle ends; one constructor per branch of
    [performSmartSync]. *)
Inductive cycle :=
| UploadFailed (uploadResult : Result.t)
| NoRemoteData
| UpToDate
| Downloaded (downloadResult : Result.t)
| CriticalError (message : string).

(** Line 724:
    [!lastSyncTime || (remoteTime && remoteTime > parseInt(lastSyncTime))]. *)
Definition remoteIsNewer (lastSyncTime : option string) (remoteTime : option Z)
  : bool :=
  bool_decide (str_or lastSyncTime "" = "") ||
  match truthy_num remoteTime, parseInt (str_or lastSyncTime "") with
  | Some t, Some l => bool_decide (l < t)
  | _, _ => false
  end.

(** Lines 699-750; the 500 ms pause only spends time. *)
Definition performSmartSync (r : render) (envU envE : uploadEnv)
    (envD : downloadEnv) : action cycle :=
  tryCatch
    (uploadResult ← syncToConvex r None envU;
     if negb (Result.success uploadResult) then mret (UploadFailed uploadResult)
     else
       match getLatestWalletData r with
       | Some latest =>
           lastSyncTime ← getItem "convex_last_sync_time";
           let remoteTime := Remote.lastModified latest in
           if remoteIsNewer lastSyncTime remoteTime then
             downloadResult ← syncFromConvex r None envE envD;
             mret (Downloaded downloadResult)
           else mret UpToDate
       | None => mret NoRemoteData
       end)
    (λ message,
       setSyncState (λ prev,
         SyncState.mk (SyncState.isEnabled prev) (SyncState.isPaused prev)
                      (SyncState.isSyncing prev) (SyncState.lastSyncTime prev)
                      (Some message));;
       mret (CriticalError message)).

End Orchestrator.

(** The calls that write the local wallet. *)
Definition isImport (c : call) : bool :=
  match c with ImportData _ => true | _ => false end.

(** ** The orchestrator: pause, resume and the effects *)

(** Lines 814-833; nothing in the [try] throws. *)
Definition pauseSync : action Result.t :=
  setSyncState (λ prev,
    SyncState.mk (SyncState.isEnabled prev) true (SyncState.isSyncing prev)
                 (SyncState.lastSyncTime prev) (SyncState.error prev));;
  setItem "convex_sync_paused" "true";;
  toast "Auto Sync Paused";;
  mret Result.ok.

(** Lines 836-855. *)
Definition resumeSync : action Result.t :=
  setSyncState (λ prev,
    SyncState.mk (SyncState.isEnabled prev) false (SyncState.isSyncing prev)
                 (SyncState.lastSyncTime prev) (SyncState.error prev));;
  removeItem "convex_sync_paused";;
  toast "Auto Sync Resumed";;
  mret Result.ok.

(** Lines 858-861, the effect that runs once when the hook mounts. *)
Definition loadPauseState : action unit :=
  stored ← getItem "convex_sync_paused";
  let isPaused := bool_decide (stored = Some "true") in
  setSyncState (λ prev,
    SyncState.mk (SyncState.isEnabled prev) isPaused (SyncState.isSyncing prev)
                 (SyncState.lastSyncTime prev) (SyncState.error prev)).

(** The browser and system labels of lines 103-117, as functions of the
    user agent. *)
Definition detectBrowser (ua : string) : string :=
  if includes ua "Chrome" then "Chrome"
  else if includes ua "Firefox" then "Firefox"
  else if includes ua "Safari" && negb (includes ua "Chrome") then "Safari"
  else if includes ua "Edge" then "Edge"
  else "Browser".

Definition detectOS (ua : string) : string :=
  if includes ua "Windows" then "Windows"
  else if includes ua "Mac" then "macOS"
  else if includes ua "Linux" then "Linux"
  else if includes ua "Android" then "Android"
  else if includes ua "iPhone" || includes ua "iPad" then "iOS"
  else "Device".

Section Effects.
Context {platform : Platform}.

(** Lines 53-58: the effect that enables sync for a signed-in user. The
    promise of [enableSync] is not awaited, its result is dropped. *)
Definition autoEnableEffect (r : render) (env : uploadEnv) : action unit :=
  if isAuthenticated r && negb (SyncState.isEnabled (syncState r))
     && negb (SyncState.isSyncing (syncState r))
  then enableSync r env;; mret ()
  else mret ().

(** Lines 77-88: the effect that downloads when the hook mounts. *)
Definition autoSyncOnMount (r : render) (envE : uploadEnv) (envD : downloadEnv)
  : action unit :=
  if isAuthenticated r && SyncState.isEnabled (syncState r)
     && negb (SyncState.isSyncing (syncState r))
  then
    match getLatestWalletData r with
    | Some latest =>
        lastSyncTime ← getItem "convex_last_sync_time";
        if remoteIsNewer lastSyncTime (Remote.lastModified latest)
        then syncFromConvex r None envE envD;; mret ()
        else mret ()
    | None => mret ()
    end
  else mret ().

(** Lines 776-811: one firing of the 10 s interval. Under the guard of line
    777 no interval is installed, so nothing happens. *)
Definition monitoringTick (r : render) (envE : uploadEnv) (envD : downloadEnv)
  : action unit :=
  if negb (SyncState.isEnabled (syncState r)) || negb (isAuthenticated r)
     || SyncState.isPaused (syncState r)
  then mret ()
  else
    tryCatch
      (if SyncState.isSyncing (syncState r) then mret ()
       else
         match getLatestWalletData r with
         | Some latest =>
             lastSyncTime ← getItem "convex_last_sync_time";
             if remoteIsNewer lastSyncTime (Remote.lastModified latest)
             then syncFromConvex r None envE envD;; mret ()
             else mret ()
         | None => mret ()
         end)
      (λ _, mret ()).

End Effects.

(** The calls that reach the remote store. *)
Definition isMutation (c : call) : bool :=
  match c with
  | StoreWalletData _ _ _ _ | UpdateSyncMetadata _ _ _ => true
  | _ => false
  end.

(** The snapshot [syncToConvex] encrypts (lines 264-276): the wallet without
    its default categories and without the debt/credit transactions. *)
Definition uploadedData (walletData : snapshot) (userCategories : list Item.t)
    (now : Z) : snapshot :=
  {| userProfile := userProfile walletData;
     transactions := transactions walletData;
     budgets := budgets walletData;
     goals := goals walletData;
     debtAccounts := debtAccounts walletData;
     creditAccounts := creditAccounts walletData;
     debtCreditTransactions := Absent;
     categories := Items userCategories;
     emergencyFund := emergencyFund walletData;
     exportedAt := now |}.

(** ** Closed forms used by the further properties *)

(** The line one iteration of a merge loop pushes on the log, if any: the
    remote entry is added when its id is unknown locally, updated when it is
    newer than the entry the local map holds under its id. *)
Definition logLine (localMap : gmap string Item.t)
    (added updated : Item.t → log_entry) (remote : Item.t) : option log_entry :=
  match localMap !! Item.id remote with
  | None => Some (added remote)
  | Some localVersion =>
      if decide (getTimestamp localVersion < getTimestamp remote)
      then Some (updated remote) else None
  end.

(** No local collection is a truthy value that is not an array. *)
Definition localArrays (localData : snapshot) : Prop :=
  ∀ c, field c localData ≠ NotArray true.

(** ** What a merge does to the local edits

    The local entry [e] of the collection [col] cannot be overwritten by the
    merge with [remoteData]: the collection is the append-only one, or no
    remote entry with the id of [e] has a strictly larger timestamp than a
    local entry with that id. *)
Definition notOutdated (col : collection) (localData remoteData : snapshot)
    (e : Item.t) : Prop :=
  col = DebtCreditTransactions ∨
  ∀ x y, x ∈ entries (field col localData) →
         y ∈ entries (field col remoteData) →
         Item.id x = Item.id e → Item.id y = Item.id e →
         ¬ getTimestamp x < getTimestamp y.

(** The fate of each kind of local edit in the snapshot [mergedData] obtained
    from [localData] and [remoteData].
    - An entry added or modified locally: its id is kept, and the entry
      itself when it is [notOutdated].
    - An entry deleted locally: when [remoteData] still holds an entry under
      an id unknown locally, that entry is back (remote default categories
      apart).
    - The emergency fund: the remote value when it is larger than the local
      one (an undefined or zero local fund counting as 0), else the local
      value.
    - The profile: the local one when [remoteData] has none; else every
      property the remote profile defines has the remote value, and only the
      other properties keep the local value. *)
Definition localEditsAfterMerge (localData remoteData mergedData : snapshot)
  : Prop :=
  (∀ col e, e ∈ entries (field col localData) →
     Item.id e ∈ ids (entries (field col mergedData)) ∧
     (notOutdated col localData remoteData e →
      e ∈ entries (field col mergedData))) ∧
  (∀ col y, y ∈ entries (field col remoteData) →
     Item.id y ∉ ids (entries (field col localData)) →
     ¬ (col = Categories ∧ Item.isDefault y = true) →
     y ∈ entries (field col mergedData)) ∧
  emergencyFund mergedData
    = match emergencyFund remoteData with
      | Some remoteFund =>
          if decide (num_or (emergencyFund localData) 0 < remoteFund)
          then Some remoteFund else emergencyFund localData
      | None => emergencyFund localData
      end ∧
  match userProfile remoteData with
  | None => userProfile mergedData = userProfile localData
  | Some remoteProfile =>
      ∃ p, userProfile mergedData = Some p ∧
           ∀ k, Profile.fields p !! k
                = match Profile.fields remoteProfile !! k with
                  | Some v => Some v
                  | None =>
                      userProfile localData ≫= (λ lp, Profile.fields lp !! k)
                  end
  end.

(** ** Sample data *)

Definition entry (i : string) (lm te ca : option Z) (n : string) : Item.t :=
  Item.mk i lm te ca false n n 0.

Definition withTransactions (l : list Item.t) : snapshot :=
  Snapshot None (Items l) Absent Absent Absent Absent Absent Absent None 0.

Definition withFund (f : Z) : snapshot :=
  Snapshot None Absent Absent Absent Absent Absent Absent Absent (Some f) 0.

Definition catUser : Item.t := Item.mk "c1" (Some 7) None None false "Pets" "" 0.
Definition catDefault : Item.t := Item.mk "d1" None None None true "Food" "" 0.

(** A user category listed before a default one. *)
Definition S_cat : snapshot :=
  Snapshot None Absent Absent Absent Absent Absent Absent
           (Items [catUser; catDefault]) None 0.

(** A profile without [lastModified]. *)
Definition S_prof : snapshot :=
  Snapshot (Some (Profile.mk {["name" := "Ann"]} None))
           Absent Absent Absent Absent Absent Absent Absent None 0.

(** Scenario A of the specification: one shared id with a newer remote
    version, one id known remotely only. *)
Definition txn (i : string) (amount ts : Z) : Item.t :=
  Item.mk i (Some ts) None None false "" "" amount.

Definition localA : snapshot := withTransactions [txn "1" 10 5].
Definition remoteA : snapshot := withTransactions [txn "1" 12 9; txn "2" 3 1].
Definition resultA : merge_result :=
  MergeResult (withTransactions [txn "1" 12 9; txn "2" 3 1]) []
              [UpdatedTransaction ""; AddedTransaction "" 3].

(** Scenario B: the local fund is the larger one. *)
Definition resultB : merge_result :=
  MergeResult (withFund 500) [] [KeptLocalEmergencyFund 500 300].

(** A ledger with one entry on each side under the same id. *)
Definition withLedger (l : list Item.t) : snapshot :=
  Snapshot None Absent Absent Absent Absent Absent (Items l) Absent None 0.
Definition resultLedger : merge_result :=
  MergeResult (withLedger [txn "1" 10 5; txn "2" 3 1]) []
              [AddedDebtCreditTransaction ""].

(** A local [lastModified] of 3 against a remote [lastModified] of 0 with a
    [timeEquivalent] of 5. *)
Definition localZero : snapshot :=
  withTransactions [entry "a" (Some 3) None None "local"].
Definition remoteZero : snapshot :=
  withTransactions [entry "a" (Some 0) (Some 5) None "remote"].

(** A remote array with two entries under the id of a local entry. *)
Definition localOne : snapshot :=
  withTransactions [entry "a" (Some 5) None None "local"].
Definition remoteTwice : snapshot :=
  withTransactions [entry "a" (Some 9) None None "newest";
                    entry "a" (Some 7) None None "newer"].

(** A platform for running the orchestrator on examples: keys and
    ciphertexts are kept in clear, every remote record decrypts to the remote
    snapshot of scenario A, numbers are printed in decimal. *)
Definition samplePlatform : Platform :=
  {| CryptoKey := string * list byte;
     deriveKeyFromPin := λ password salt, Some (password, salt);
     encryptData := λ text _, Some text;
     decryptData := λ text _, Some text;
     generateIntegrityHash := λ text, Some text;
     JSON_stringify := λ _, "{}";
     JSON_parse := λ _, Some remoteA;
     toString := λ z, NilZero.string_of_int (Z.to_int z);
     parseInt := λ s, Z.of_int <$> NilZero.int_of_string s |}.

Definition sampleUser : User.t := User.mk "u1" "ann@example.org" "Ann".

Definition sampleWallet : snapshot :=
  Snapshot None (Items [txn "1" 20 15]) Absent Absent Absent Absent Absent
           (Items [catDefault; catUser]) None 0.

Definition enabledState : SyncState.t := SyncState.mk true false false None None.

Definition sampleRender : render :=
  Render (Some sampleUser) true false enabledState sampleWallet
         (Some (Remote.mk "cipher" (Some 200))).

Definition sampleUpload : uploadEnv :=
  UploadEnv 90 "device_1" "Mozilla/5.0 (X11; Linux x86_64) Chrome/120.0" None None 100.

Definition rejectedUpload : uploadEnv :=
  UploadEnv 90 "device_1" "Mozilla/5.0 (X11; Linux x86_64) Chrome/120.0"
            (Some "Network down") None 100.

Definition sampleDownload : downloadEnv := DownloadEnv 110 (ImportResolves true) 120.

Definition sampleWorld : world := World enabledState ∅ [].

(** What the cycle of [sampleRender] imports: the local version of
    transaction 1, which is the newer one, and the remote transaction 2. *)
Definition sampleMerged : snapshot :=
  Snapshot None (Items [txn "1" 20 15; txn "2" 3 1]) Absent Absent Absent Absent
           Absent (Items [catDefault; catUser]) None 110.

Definition sampleDownloadResult : Result.t :=
  Result.mk true None None
            (Some (MergeResult sampleMerged [] [AddedTransaction "" 3])).

(** The sample render before any upload reached the remote store. *)
Definition noRemoteRender : render :=
  Render (Some sampleUser) true false enabledState sampleWallet None.

(** A render whose wallet holds a string where the transactions should be. *)
Definition brokenRender : render :=
  Render (Some sampleUser) true false enabledState
         (Snapshot None (NotArray true) Absent Absent Absent Absent Absent
                   (Items []) None 0)
         (Some (Remote.mk "cipher" (Some 200))).

Definition sampleMergeResult : merge_result :=
  MergeResult sampleMerged [] [AddedTransaction "" 3].

Definition refusedImport : downloadEnv := DownloadEnv 110 (ImportResolves false) 120.

(** An upload from Chrome on an Android phone. *)
Definition androidPhone : uploadEnv :=
  UploadEnv 90 "device_2"
    "Mozilla/5.0 (Linux; Android 13; Pixel 7) AppleWebKit/537.36 (KHTML, like Gecko) Chrome/120.0.0.0 Mobile Safari/537.36"
    None None 100.

(** The render that follows [disableSync] for a user who stays signed in. *)
Definition signedInAfterDisable : render :=
  Render (Some sampleUser) true false SyncState.initial sampleWallet None.

(** A platform like [samplePlatform] whose [JSON.parse] answers the merged
    sample wallet. *)
Definition echoPlatform : Platform :=
  {| CryptoKey := string * list byte;
     deriveKeyFromPin := λ password salt, Some (password, salt);
     encryptData := λ text _, Some text;
     decryptData := λ text _, Some text;
     generateIntegrityHash := λ text, Some text;
     JSON_stringify := λ _, "{}";
     JSON_parse := λ _, Some sampleMerged;
     toString := λ z, NilZero.string_of_int (Z.to_int z);
     parseInt := λ s, Z.of_int <$> NilZero.int_of_string s |}.

(** A world that was paused and holds a stored passphrase with its salt. *)
Definition pausedWorld : world :=
  World (SyncState.mk true true false (Some 100) None)
        (<["convex_sync_enabled" := "true"]>
         (<["convex_sync_password" := "secret"]>
          (<["convex_sync_salt" := "c2FsdA=="]>
           (<["convex_sync_paused" := "true"]>
            (<["convex_last_sync_time" := "100"]> ∅)))))
        [].

(** The sample render with sync still disabled. *)
Definition disabledRender : render :=
  Render (Some sampleUser) true false SyncState.initial sampleWallet
         (Some (Remote.mk "cipher" (Some 200))).

(** The broken render with sync still disabled. *)
Definition brokenDisabledRender : render :=
  Render (Some sampleUser) true false SyncState.initial (wallet brokenRender)
         (Some (Remote.mk "cipher" (Some 200))).

Definition disabledWorld : world := World SyncState.initial ∅ [].

(** A wallet as its device uploaded it some time ago: the export time is 50,
    the profile was last modified at 10. *)
Definition uploadedBefore : snapshot :=
  Snapshot (Some (Profile.mk {["currency" := "EUR"]} (Some 10)))
           (Items [txn "1" 10 5; txn "2" 3 1]) Absent Absent Absent Absent
           Absent (Items []) (Some 500) 50.

(** The same wallet after three local edits: the currency of the profile
    was changed at 80, transaction 2 was deleted, and the emergency fund was
    lowered from 500 to 300. *)
Definition editedWallet : snapshot :=
  Snapshot (Some (Profile.mk {["currency" := "USD"]} (Some 80)))
           (Items [txn "1" 10 5]) Absent Absent Absent Absent
           Absent (Items [catDefault]) (Some 300) 0.

(** A platform like [samplePlatform] on which the remote record decrypts to
    [uploadedBefore]. *)
Definition stalePlatform : Platform :=
  {| CryptoKey := string * list byte;
     deriveKeyFromPin := λ password salt, Some (password, salt);
     encryptData := λ text _, Some text;
     decryptData := λ text _, Some text;
     generateIntegrityHash := λ text, Some text;
     JSON_stringify := λ _, "{}";
     JSON_parse := λ _, Some uploadedBefore;
     toString := λ z, NilZero.string_of_int (Z.to_int z);
     parseInt := λ s, Z.of_int <$> NilZero.int_of_string s |}.

(** The render that sees the edited wallet; the remote record at hand was
    stamped 200 by the relay, whose clock is ahead of the device's. *)
Definition editedRender : render :=
  Render (Some sampleUser) true false enabledState editedWallet
         (Some (Remote.mk "cipher" (Some 200))).

(** What the cycle of [editedRender] imports: the three edits are undone. *)
Definition revertedWallet : snapshot :=
  Snapshot (Some (Profile.mk {["currency" := "EUR"]} (Some 80)))
           (Items [txn "1" 10 5; txn "2" 3 1]) Absent Absent Absent Absent
           Absent (Items [catDefault]) (Some 500) 110.

(** Three transactions under one id. *)
Definition S_dup : snapshot :=
  withTransactions [entry "a" (Some 1) None None "A";
                    entry "a" (Some 5) None None "B";
                    entry "a" (Some 3) None None "C"].


(** * Properties *)

(** ** The id lookup *)

Lemma idMap_snoc (l : list Item.t) (x : Item.t) :
  idMap (l ++ [x]) = <[Item.id x := x]> (idMap l).
Proof. unfold idMap. by rewrite foldl_app. Qed.

Lemma idMap_lookup_None (l : list Item.t) (k : string) :
  idMap l !! k = None ↔ k ∉ ids l.
Proof.
  induction l as [|x l IH] using rev_ind.
  - unfold idMap, ids; simpl. rewrite lookup_empty. split; [|done].
    intros _ H. by apply elem_of_nil in H.
  - rewrite idMap_snoc. unfold ids in *. rewrite fmap_app; simpl.
    rewrite not_elem_of_app, <- IH.
    destruct (decide (Item.id x = k)) as [<-|Hne].
    + rewrite lookup_insert_eq. split; [done|]. intros [_ H].
      exfalso. apply H. by apply list_elem_of_singleton.
    + rewrite lookup_insert_ne by done. split; [|tauto].
      intros H; split; [done|]. rewrite list_elem_of_singleton. congruence.
Qed.

Lemma idMap_lookup_Some (l : list Item.t) (k : string) (v : Item.t) :
  idMap l !! k = Some v → v ∈ l ∧ Item.id v = k.
Proof.
  induction l as [|x l IH] using rev_ind.
  - unfold idMap; simpl. intros H. by rewrite lookup_empty in H.
  - rewrite idMap_snoc. destruct (decide (Item.id x = k)) as [<-|Hne].
    + rewrite lookup_insert_eq. intros [= <-]. split; [|done].
      apply elem_of_app; right. by apply list_elem_of_singleton.
    + rewrite lookup_insert_ne by done. intros H.
      destruct (IH H) as [Hin Hid]. split; [|done].
      apply elem_of_app; by left.
Qed.

Lemma ids_inj (l : list Item.t) (x y : Item.t) :
  NoDup (ids l) → x ∈ l → y ∈ l → Item.id x = Item.id y → x = y.
Proof.
  unfold ids. induction l as [|z l IH]; simpl.
  - intros _ H. by apply elem_of_nil in H.
  - rewrite NoDup_cons. intros [Hz Hnd] Hx Hy Heq.
    apply elem_of_cons in Hx as [->|Hx]; apply elem_of_cons in Hy as [->|Hy].
    + done.
    + exfalso. apply Hz. rewrite Heq. by apply list_elem_of_fmap_2.
    + exfalso. apply Hz. rewrite <- Heq. by apply list_elem_of_fmap_2.
    + by apply IH.
Qed.

Lemma idMap_lookup_NoDup (l : list Item.t) (x : Item.t) :
  NoDup (ids l) → x ∈ l → idMap l !! Item.id x = Some x.
Proof.
  intros Hnd Hx.
  destruct (idMap l !! Item.id x) as [v|] eqn:Hv.
  - apply idMap_lookup_Some in Hv as [Hv Hid].
    f_equal. by apply (ids_inj l).
  - apply idMap_lookup_None in Hv. exfalso. apply Hv.
    unfold ids. by apply list_elem_of_fmap_2.
Qed.

(** ** The merge loop *)

Lemma findIndex_Some (k : string) (m : list Item.t) (i : nat) :
  findIndex k m = Some i ↔
  ∃ x, m !! i = Some x ∧ Item.id x = k ∧
       ∀ j y, m !! j = Some y → (j < i)%nat → Item.id y ≠ k.
Proof.
  unfold findIndex. split.
  - destruct (list_find _ m) as [[i' x]|] eqn:Hf; simpl; [|done].
    intros [= ->]. apply list_find_Some in Hf as (Hx & Hk & Hmin).
    exists x. auto.
  - intros (x & Hx & Hk & Hmin).
    assert (list_find (λ x, Item.id x = k) m = Some (i, x)) as ->; [|done].
    apply list_find_Some. auto.
Qed.

Lemma findIndex_None (k : string) (m : list Item.t) :
  findIndex k m = None ↔ k ∉ ids m.
Proof.
  unfold findIndex, ids. destruct (list_find _ m) as [[i x]|] eqn:Hf; simpl.
  - apply list_find_Some in Hf as (Hx & Hk & _). split; [done|].
    intros H. exfalso. apply H. rewrite <- Hk.
    apply list_elem_of_fmap_2. by eapply list_elem_of_lookup_2.
  - split; [|done]. intros _ Hin.
    apply list_elem_of_fmap in Hin as (x & -> & Hx).
    apply list_find_None in Hf. rewrite Forall_forall in Hf. by apply (Hf x).
Qed.

Lemma resolve_id (r : list Item.t) (x : Item.t) :
  Item.id (resolve r x) = Item.id x.
Proof.
  unfold resolve. destruct (last _) as [y|] eqn:Hl; simpl; [|done].
  apply last_Some_elem_of in Hl.
  apply list_elem_of_filter in Hl as [[Hid _] _]. done.
Qed.

Lemma resolve_nil (x : Item.t) : resolve [] x = x.
Proof. done. Qed.

Lemma resolve_snoc (r : list Item.t) (x y : Item.t) :
  resolve (r ++ [y]) x = if decide (overrides x y) then y else resolve r x.
Proof.
  unfold resolve. rewrite filter_app, filter_cons, filter_nil.
  destruct (decide (overrides x y)).
  - by rewrite last_snoc.
  - by rewrite app_nil_r.
Qed.

Lemma ids_resolve (r l : list Item.t) : ids (resolve r <$> l) = ids l.
Proof.
  unfold ids. rewrite <- list_fmap_compose. apply list_fmap_ext.
  intros i x _. simpl. apply resolve_id.
Qed.

Lemma mergeById_snoc added updated (l r : list Item.t) (y : Item.t) :
  mergeById added updated l (r ++ [y]) =
  mergeStep (idMap l) added updated (mergeById added updated l r) y.
Proof. unfold mergeById. by rewrite foldl_app. Qed.

(** With unique local ids the array built by the loop is the local array
    with every entry resolved in place, followed by the remote entries whose
    id is unknown locally, in remote order. *)
Lemma mergeById_closed_form added updated (l r : list Item.t) :
  NoDup (ids l) →
  (mergeById added updated l r).1 =
  (resolve r <$> l) ++ filter (λ y, Item.id y ∉ ids l) r.
Proof.
  intros Hnd. induction r as [|y r IH] using rev_ind.
  - unfold mergeById; simpl. rewrite app_nil_r.
    rewrite <- (list_fmap_id l) at 1. apply list_fmap_ext. done.
  - rewrite mergeById_snoc.
    destruct (mergeById added updated l r) as [m lg]; simpl in IH. subst m.
    rewrite filter_app, filter_cons, filter_nil. unfold mergeStep.
    destruct (idMap l !! Item.id y) as [x0|] eqn:Hx0.
    + (* the id is known locally *)
      pose proof Hx0 as Hx0'. apply idMap_lookup_Some in Hx0' as [Hin Hid].
      assert (Item.id y ∈ ids l) as Hy.
      { rewrite <- Hid. unfold ids. by apply list_elem_of_fmap_2. }
      destruct (decide (Item.id y ∉ ids l)) as [?|_]; [done|].
      rewrite app_nil_r.
      apply list_elem_of_lookup in Hin as [i Hi].
      assert (∀ j x, l !! j = Some x → j ≠ i → Item.id x ≠ Item.id y) as Hother.
      { intros j x Hj Hne Heq. apply Hne.
        apply (NoDup_lookup (ids l) j i (Item.id y)); [done| |].
        - unfold ids. by rewrite list_lookup_fmap, Hj; simpl; rewrite Heq.
        - unfold ids. by rewrite list_lookup_fmap, Hi; simpl; rewrite Hid. }
      destruct (decide (getTimestamp x0 < getTimestamp y)) as [Hlt|Hge].
      * assert (findIndex (Item.id y)
                  ((resolve r <$> l) ++ filter (λ y0, Item.id y0 ∉ ids l) r)
                = Some i) as ->.
        { apply findIndex_Some. exists (resolve r x0). split; [|split].
          - rewrite lookup_app_l.
            + by rewrite list_lookup_fmap, Hi.
            + rewrite length_fmap. by eapply lookup_lt_Some.
          - by rewrite resolve_id.
          - intros j z Hj Hji.
            assert (j < length l)%nat as Hjl.
            { apply lookup_lt_Some in Hi. lia. }
            rewrite lookup_app_l in Hj by by rewrite length_fmap.
            rewrite list_lookup_fmap in Hj.
            destruct (l !! j) as [x|] eqn:Hxj; simpl in Hj; [|done].
            injection Hj as <-. rewrite resolve_id.
            apply (Hother j x Hxj). lia. }
        simpl.
        rewrite insert_app_l by (rewrite length_fmap; by eapply lookup_lt_Some).
        f_equal. apply list_eq. intros j.
        destruct (decide (j = i)) as [->|Hne].
        -- rewrite list_lookup_insert_eq
             by (rewrite length_fmap; by eapply lookup_lt_Some).
           rewrite list_lookup_fmap, Hi; simpl. rewrite resolve_snoc.
           rewrite decide_True; [done|]. split; [by rewrite Hid|done].
        -- rewrite list_lookup_insert_ne by done.
           rewrite !list_lookup_fmap.
           destruct (l !! j) as [x|] eqn:Hxj; simpl; [|done].
           rewrite resolve_snoc. rewrite decide_False; [done|].
           intros [Heq _]. by apply (Hother j x Hxj Hne).
      * simpl. f_equal. apply list_fmap_ext. intros j x Hxj.
        rewrite resolve_snoc. rewrite decide_False; [done|].
        intros [Heq Hlt]. apply Hge.
        destruct (decide (j = i)) as [->|Hne].
        -- rewrite Hi in Hxj. by injection Hxj as ->.
        -- exfalso. by apply (Hother j x Hxj Hne).
    + (* the id is new *)
      apply idMap_lookup_None in Hx0.
      rewrite decide_True by done. simpl. rewrite app_assoc. do 2 f_equal.
      apply list_fmap_ext. intros j x Hxj.
      rewrite resolve_snoc. rewrite decide_False; [done|].
      intros [Heq _]. apply Hx0. rewrite Heq. unfold ids.
      apply list_elem_of_fmap_2. by eapply list_elem_of_lookup_2.
Qed.

(** Without any assumption on the ids, the loop keeps the id at every local
    position and appends the ids unknown locally. *)
Lemma mergeById_ids added updated (l r : list Item.t) :
  ids (mergeById added updated l r).1 =
  ids l ++ ids (filter (λ y, Item.id y ∉ ids l) r).
Proof.
  induction r as [|y r IH] using rev_ind.
  - unfold mergeById; simpl. by rewrite app_nil_r.
  - rewrite mergeById_snoc.
    destruct (mergeById added updated l r) as [m lg]; simpl in IH.
    rewrite filter_app, filter_cons, filter_nil. unfold mergeStep.
    destruct (idMap l !! Item.id y) as [x0|] eqn:Hx0.
    + assert (Item.id y ∈ ids l) as Hy.
      { apply idMap_lookup_Some in Hx0 as [Hin Hid].
        rewrite <- Hid. unfold ids. by apply list_elem_of_fmap_2. }
      destruct (decide (Item.id y ∉ ids l)) as [?|_]; [done|]. rewrite app_nil_r.
      destruct (decide (getTimestamp x0 < getTimestamp y)); [|done].
      destruct (findIndex (Item.id y) m) as [i|] eqn:Hi; [|done].
      apply findIndex_Some in Hi as (z & Hz & Hid & _). simpl.
      rewrite <- IH. unfold ids. rewrite list_fmap_insert.
      apply list_insert_id. by rewrite list_lookup_fmap, Hz; simpl; rewrite Hid.
    + apply idMap_lookup_None in Hx0. rewrite decide_True by done. simpl.
      unfold ids in *. rewrite !fmap_app, IH. simpl. by rewrite app_assoc.
Qed.

Lemma mergeAppendOnly_closed_form (l r : list Item.t) :
  (mergeAppendOnly l r).1 = l ++ filter (λ y, Item.id y ∉ ids l) r.
Proof.
  induction r as [|y r IH] using rev_ind.
  - unfold mergeAppendOnly; simpl. by rewrite app_nil_r.
  - unfold mergeAppendOnly in *. rewrite foldl_app; simpl.
    destruct (foldl _ _ r) as [m lg]; simpl in IH. subst m.
    rewrite filter_app, filter_cons, filter_nil. unfold appendStep.
    destruct (idMap l !! Item.id y) as [x0|] eqn:Hx0.
    + assert (Item.id y ∈ ids l) as Hy.
      { apply idMap_lookup_Some in Hx0 as [Hin Hid].
        rewrite <- Hid. unfold ids. by apply list_elem_of_fmap_2. }
      destruct (decide (Item.id y ∉ ids l)) as [?|_]; [done|]. by rewrite app_nil_r.
    + apply idMap_lookup_None in Hx0. rewrite decide_True by done. simpl.
      by rewrite app_assoc.
Qed.

(** The loops log nothing about the emergency fund. *)
Lemma mergeById_log added updated (l r : list Item.t) :
  (∀ y, isFundLine (added y) = false) →
  (∀ y, isFundLine (updated y) = false) →
  Forall (λ e, isFundLine e = false) (mergeById added updated l r).2.
Proof.
  intros Ha Hu. induction r as [|y r IH] using rev_ind.
  - unfold mergeById; simpl. constructor.
  - rewrite mergeById_snoc.
    destruct (mergeById added updated l r) as [m lg]; simpl in IH.
    unfold mergeStep. destruct (idMap l !! Item.id y) as [x0|]; simpl.
    + destruct (decide _); [|done].
      destruct (findIndex _ _); [|done]. simpl.
      apply Forall_app; split; [done|]. by repeat constructor.
    + apply Forall_app; split; [done|]. by repeat constructor.
Qed.

Lemma mergeAppendOnly_log (l r : list Item.t) :
  Forall (λ e, isFundLine e = false) (mergeAppendOnly l r).2.
Proof.
  induction r as [|y r IH] using rev_ind.
  - unfold mergeAppendOnly; simpl. constructor.
  - unfold mergeAppendOnly in *. rewrite foldl_app; simpl.
    destruct (foldl _ _ r) as [m lg]; simpl in IH.
    unfold appendStep. destruct (idMap l !! Item.id y) as [x0|]; simpl; [done|].
    apply Forall_app; split; [done|]. by repeat constructor.
Qed.

Lemma mergeOf_log (c : collection) (l r : list Item.t) :
  Forall (λ e, isFundLine e = false) (mergeOf c l r).2.
Proof.
  destruct c; simpl; try (by apply mergeById_log); [|apply mergeAppendOnly_log].
  unfold mergeCategories.
  pose proof (mergeById_log (λ r, AddedUserCategory (Item.name r))
                (λ r, UpdatedUserCategory (Item.name r))
                (filter (λ c, Item.isDefault c = false) l)
                (filter (λ c, Item.isDefault c = false) r)) as H.
  destruct (mergeById _ _ _ _) as [m lg]; simpl in *. by apply H.
Qed.

(** ** The whole merge *)

Lemma mergeCollection_log merge (c : collection) (lc rc mc : coll) lg :
  merge = mergeOf c →
  mergeCollection merge lc rc = Some (mc, lg) →
  Forall (λ e, isFundLine e = false) lg.
Proof.
  intros -> H. unfold mergeCollection in H.
  destruct rc as [|b|r]; try (injection H as <- <-; constructor).
  destruct (localArray lc) as [l|]; simpl in H; [|done].
  pose proof (mergeOf_log c l r) as Hlog.
  destruct (mergeOf c l r) as [m lg']. injection H as <- <-. done.
Qed.

(** What a returned result is made of, property by property. *)
Lemma mergeWalletData_inv (L R : snapshot) (res : merge_result) :
  mergeWalletData L R = Some res →
  (∀ c, ∃ lg, mergeCollection (mergeOf c) (field c L) (field c R)
              = Some (field c (merged res), lg)) ∧
  emergencyFund (merged res)
    = (mergeEmergencyFund (emergencyFund L) (emergencyFund R)).1 ∧
  userProfile (merged res)
    = (mergeUserProfile (userProfile L) (userProfile R)).1 ∧
  exportedAt (merged res) = exportedAt L ∧
  conflicts res = [] ∧
  ∃ lines, Forall (λ e, isFundLine e = false) lines ∧
           mergeLog res
           = lines ++ (mergeEmergencyFund (emergencyFund L) (emergencyFund R)).2
                   ++ (mergeUserProfile (userProfile L) (userProfile R)).2.
Proof.
  unfold mergeWalletData.
  destruct (mergeCollection _ (transactions L) _) as [[m1 l1]|] eqn:H1; [|done].
  destruct (mergeCollection _ (budgets L) _) as [[m2 l2]|] eqn:H2; [|done].
  destruct (mergeCollection _ (goals L) _) as [[m3 l3]|] eqn:H3; [|done].
  destruct (mergeCollection _ (categories L) _) as [[m4 l4]|] eqn:H4; [|done].
  destruct (mergeCollection _ (debtAccounts L) _) as [[m5 l5]|] eqn:H5; [|done].
  destruct (mergeCollection _ (creditAccounts L) _) as [[m6 l6]|] eqn:H6; [|done].
  destruct (mergeCollection _ (debtCreditTransactions L) _) as [[m7 l7]|] eqn:H7;
    [|done].
  simpl.
  destruct (mergeEmergencyFund _ _) as [mef l8].
  destruct (mergeUserProfile _ _) as [mup l9].
  intros [= <-]; simpl. repeat split.
  - intros []; simpl; eauto.
  - exists (l1 ++ l2 ++ l3 ++ l4 ++ l5 ++ l6 ++ l7). split.
    + repeat (apply Forall_app; split).
      * by eapply (mergeCollection_log _ Transactions).
      * by eapply (mergeCollection_log _ Budgets).
      * by eapply (mergeCollection_log _ Goals).
      * by eapply (mergeCollection_log _ Categories).
      * by eapply (mergeCollection_log _ DebtAccounts).
      * by eapply (mergeCollection_log _ CreditAccounts).
      * by eapply (mergeCollection_log _ DebtCreditTransactions).
    + by rewrite <- !app_assoc.
Qed.

(** [mergeWalletData] returns unless it throws, and it throws exactly in the
    one situation described by [throws]. *)
Lemma mergeWalletData_throws_iff (L R : snapshot) :
  mergeWalletData L R = None ↔ throws L R.
Proof.
  assert (∀ c merge, mergeCollection merge (field c L) (field c R) = None ↔
            field c L = NotArray true ∧ ∃ l, field c R = Items l) as Hc.
  { intros c merge. unfold mergeCollection.
    destruct (field c R) as [|b|r].
    - split; [done|]. by intros [_ [l ?]].
    - split; [done|]. by intros [_ [l ?]].
    - destruct (field c L) as [|[]|l]; simpl.
      + destruct (merge [] r). split; [done|]. by intros [? _].
      + split; [|done]. intros _. eauto.
      + destruct (merge [] r). split; [done|]. by intros [? _].
      + destruct (merge l r). split; [done|]. by intros [? _]. }
  unfold throws. split.
  - unfold mergeWalletData.
    destruct (mergeCollection _ (transactions L) _) as [[m1 l1]|] eqn:H1;
      [|intros _; exists Transactions; by eapply Hc].
    destruct (mergeCollection _ (budgets L) _) as [[m2 l2]|] eqn:H2;
      [|intros _; exists Budgets; by eapply Hc].
    destruct (mergeCollection _ (goals L) _) as [[m3 l3]|] eqn:H3;
      [|intros _; exists Goals; by eapply Hc].
    destruct (mergeCollection _ (categories L) _) as [[m4 l4]|] eqn:H4;
      [|intros _; exists Categories; by eapply Hc].
    destruct (mergeCollection _ (debtAccounts L) _) as [[m5 l5]|] eqn:H5;
      [|intros _; exists DebtAccounts; by eapply Hc].
    destruct (mergeCollection _ (creditAccounts L) _) as [[m6 l6]|] eqn:H6;
      [|intros _; exists CreditAccounts; by eapply Hc].
    destruct (mergeCollection _ (debtCreditTransactions L) _) as [[m7 l7]|] eqn:H7;
      [|intros _; exists DebtCreditTransactions; by eapply Hc].
    simpl. destruct (mergeEmergencyFund _ _), (mergeUserProfile _ _). done.
  - intros [c Hthrow].
    destruct (mergeWalletData L R) as [res|] eqn:Hres; [|done].
    apply mergeWalletData_inv in Hres as [Hf _].
    destruct (Hf c) as [lg Hlg].
    apply (Hc c (mergeOf c)) in Hthrow. congruence.
Qed.

Lemma mergeCategories_fst (l r : list Item.t) :
  (mergeCategories l r).1 =
  filter (λ c, Item.isDefault c = true) l ++
  (mergeById (λ r, AddedUserCategory (Item.name r))
             (λ r, UpdatedUserCategory (Item.name r))
             (filter (λ c, Item.isDefault c = false) l)
             (filter (λ c, Item.isDefault c = false) r)).1.
Proof. unfold mergeCategories. by destruct (mergeById _ _ _ _). Qed.

Lemma elem_of_ids (x : Item.t) (l : list Item.t) : x ∈ l → Item.id x ∈ ids l.
Proof. unfold ids. apply list_elem_of_fmap_2. Qed.

Lemma mergeById_keeps_ids added updated (l r : list Item.t) (e : Item.t) :
  e ∈ l ∨ e ∈ r → Item.id e ∈ ids (mergeById added updated l r).1.
Proof.
  rewrite mergeById_ids. intros He. apply elem_of_app.
  destruct (decide (Item.id e ∈ ids l)) as [Hin|Hout]; [by left|right].
  destruct He as [He|He]; [by apply elem_of_ids in He|].
  apply elem_of_ids. by apply list_elem_of_filter.
Qed.

Lemma mergeOf_keeps_ids (c : collection) (l r : list Item.t) (e : Item.t) :
  e ∈ l ∨ (e ∈ r ∧ ¬ (c = Categories ∧ Item.isDefault e = true)) →
  Item.id e ∈ ids (mergeOf c l r).1.
Proof.
  intros He.
  assert (e ∈ l ∨ e ∈ r) as He' by tauto.
  destruct c; simpl; try (by apply mergeById_keeps_ids).
  - (* categories *)
    rewrite mergeCategories_fst. unfold ids. rewrite fmap_app.
    apply elem_of_app.
    destruct (Item.isDefault e) eqn:Hd.
    + left. destruct He as [He|[_ He]]; [|exfalso; by apply He].
      apply elem_of_ids. by apply list_elem_of_filter.
    + right. apply mergeById_keeps_ids.
      destruct He' as [He'|He']; [left|right]; by apply list_elem_of_filter.
  - (* debt/credit transactions *)
    rewrite mergeAppendOnly_closed_form. unfold ids. rewrite fmap_app.
    apply elem_of_app.
    destruct (decide (Item.id e ∈ ids l)) as [Hin|Hout]; [by left|right].
    destruct He' as [He'|He']; [by apply elem_of_ids in He'|].
    apply elem_of_ids. by apply list_elem_of_filter.
Qed.

Lemma mergeCollection_Items merge (l r : list Item.t) :
  mergeCollection merge (Items l) (Items r)
  = Some (Items (merge l r).1, (merge l r).2).
Proof. unfold mergeCollection; simpl. by destruct (merge l r). Qed.

Lemma localArray_entries (lc : coll) (l : list Item.t) :
  localArray lc = Some l → entries lc = l.
Proof. destruct lc as [|[]|l']; simpl; congruence. Qed.

(** ** Append-safety *)

(** The ids of both sides are ids of the merged collection, remote default
    categories apart. *)
Lemma merged_ids_cover (L R : snapshot) (res : merge_result)
    (c : collection) (e : Item.t) :
  mergeWalletData L R = Some res →
  e ∈ entries (field c L) ∨
    (e ∈ entries (field c R) ∧ ¬ (c = Categories ∧ Item.isDefault e = true)) →
  Item.id e ∈ ids (entries (field c (merged res))).
Proof.
  intros Hres He. apply mergeWalletData_inv in Hres as [Hf _].
  destruct (Hf c) as [lg Hc]. unfold mergeCollection in Hc.
  destruct (field c R) as [|b|r] eqn:HR; simpl in He.
  - injection Hc as <- _. destruct He as [He|[He _]]; [by apply elem_of_ids|].
    by apply elem_of_nil in He.
  - injection Hc as <- _. destruct He as [He|[He _]]; [by apply elem_of_ids|].
    by apply elem_of_nil in He.
  - destruct (localArray (field c L)) as [l|] eqn:HL; simpl in Hc; [|done].
    apply localArray_entries in HL. rewrite HL in He.
    pose proof (mergeOf_keeps_ids c l r e He) as Hk.
    destruct (mergeOf c l r) as [m lg']. injection Hc as <- _. done.
Qed.

(** C1. Whenever [mergeWalletData L R] returns, the id of every entry of a
    collection of [L], and of every entry of a collection of [R] other than
    a default category, is the id of an entry of that collection in the
    merged snapshot. (The call returns unless [throws L R], see
    [mergeWalletData_throws_iff].) *)
Theorem merge_append_safety (L R : snapshot) (res : merge_result)
    (c : collection) (e : Item.t) :
  mergeWalletData L R = Some res →
  e ∈ entries (field c L) ∨
    (e ∈ entries (field c R) ∧ ¬ (c = Categories ∧ Item.isDefault e = true)) →
  Item.id e ∈ ids (entries (field c (merged res))).
Proof. apply merged_ids_cover. Qed.

(** ** The append-only ledger *)

(** C5. When the remote snapshot carries [debtCreditTransactions] as an
    array, the merged collection is the local array, every entry at its place
    and unchanged whatever the timestamps, followed by the remote entries
    whose id does not occur locally, in remote order. *)
Theorem debtCreditTransactions_append_only (L R : snapshot)
    (res : merge_result) (r : list Item.t) :
  mergeWalletData L R = Some res →
  debtCreditTransactions R = Items r →
  ∃ l, localArray (debtCreditTransactions L) = Some l ∧
       debtCreditTransactions (merged res)
       = Items (l ++ filter (λ y, Item.id y ∉ ids l) r) ∧
       (∀ i x, l !! i = Some x →
               entries (debtCreditTransactions (merged res)) !! i = Some x) ∧
       (∀ y, y ∈ r → Item.id y ∉ ids l →
             y ∈ entries (debtCreditTransactions (merged res))) ∧
       (∀ y, y ∈ r → Item.id y ∈ ids l →
             ∀ j, (length l ≤ j)%nat →
                  entries (debtCreditTransactions (merged res)) !! j ≠ Some y).
Proof.
  intros Hres HR. apply mergeWalletData_inv in Hres as [Hf _].
  destruct (Hf DebtCreditTransactions) as [lg Hc]. simpl in Hc.
  unfold mergeCollection in Hc. rewrite HR in Hc.
  destruct (localArray (debtCreditTransactions L)) as [l|]; simpl in Hc; [|done].
  exists l. split; [done|].
  pose proof (mergeAppendOnly_closed_form l r) as Hcf.
  destruct (mergeAppendOnly l r) as [m lg']. injection Hc as <- _.
  simpl in Hcf. subst m. simpl. repeat split.
  - intros i x Hx. by apply lookup_app_l_Some.
  - intros y Hy Hid. apply elem_of_app; right. by apply list_elem_of_filter.
  - intros y Hy Hid j Hj Hlook.
    rewrite lookup_app_r in Hlook by done.
    apply list_elem_of_lookup_2, list_elem_of_filter in Hlook as [Hout _]. done.
Qed.

(** ** Collections the remote side does not carry *)

(** C9. A collection that the remote snapshot lacks or holds as a non-array
    is returned as the local snapshot has it; so are the emergency fund when
    the remote one is undefined and the profile when the remote one is
    absent. *)
Theorem merge_frame (L R : snapshot) (res : merge_result) :
  mergeWalletData L R = Some res →
  (∀ c, (∀ r, field c R ≠ Items r) → field c (merged res) = field c L) ∧
  (emergencyFund R = None → emergencyFund (merged res) = emergencyFund L) ∧
  (userProfile R = None → userProfile (merged res) = userProfile L).
Proof.
  intros Hres. apply mergeWalletData_inv in Hres as (Hf & Hef & Hup & _).
  repeat split.
  - intros c HR. destruct (Hf c) as [lg Hc]. unfold mergeCollection in Hc.
    destruct (field c R) as [|b|r]; [by injection Hc|by injection Hc|].
    by destruct (HR r).
  - intros HR. by rewrite Hef, HR.
  - intros HR. by rewrite Hup, HR.
Qed.

(** ** The emergency fund *)

(** C4 as amended. With both funds defined, the merged fund is the larger of
    the two; the log tells that the remote value replaced the local one when
    it is strictly larger, that the local one was kept when it is strictly
    larger, and holds no line about the fund when the two are equal. *)
Theorem emergencyFund_max (L R : snapshot) (res : merge_result) (a b : Z) :
  mergeWalletData L R = Some res →
  emergencyFund L = Some a →
  emergencyFund R = Some b →
  emergencyFund (merged res) = Some (Z.max a b) ∧
  (a < b → UpdatedEmergencyFund b a ∈ mergeLog res) ∧
  (b < a → KeptLocalEmergencyFund a b ∈ mergeLog res) ∧
  (a = b → ¬ recordsFundWinner (mergeLog res)).
Proof.
  intros Hres HL HR.
  apply mergeWalletData_inv in Hres as (_ & Hef & _ & _ & _ & lines & Hno & Hlog).
  rewrite HL, HR in Hef, Hlog. unfold mergeEmergencyFund in *.
  assert (num_or (Some a) 0 = a) as Ha.
  { unfold num_or, truthy_num. destruct (decide (a = 0)); simpl; congruence. }
  rewrite Ha in *. clear Ha.
  destruct (decide (a < b)) as [Hab|Hab]; [|destruct (decide (b < a)) as [Hba|Hba]];
    simpl in *; (split; [rewrite Hef; f_equal; lia|]); repeat split; try lia.
  - intros _. rewrite Hlog. apply elem_of_app; right. constructor.
  - intros _. rewrite Hlog. apply elem_of_app; right. constructor.
  - intros _ (e & He & Hfund). rewrite Hlog in He.
    apply elem_of_app in He as [He|He].
    + rewrite Forall_forall in Hno. specialize (Hno e He). congruence.
    + unfold mergeUserProfile in He. destruct (userProfile R); simpl in He.
      * apply list_elem_of_singleton in He as ->. done.
      * by apply elem_of_nil in He.
Qed.

(** ** Tie-break *)

Lemma NoDup_ids_filter (P : Item.t → Prop) `{∀ x, Decision (P x)}
    (l : list Item.t) :
  NoDup (ids l) → NoDup (ids (filter P l)).
Proof.
  intros Hnd. apply (sublist_NoDup _ (ids l)); [done|].
  unfold ids. apply fmap_sublist, sublist_filter.
Qed.

Lemma resolve_unique (r : list Item.t) (x y : Item.t) :
  NoDup (ids r) → y ∈ r → Item.id y = Item.id x → resolve r x = winner x y.
Proof.
  intros Hnd Hy Hid. unfold resolve, winner.
  destruct (last (filter (overrides x) r)) as [z|] eqn:Hl; simpl.
  - apply last_Some_elem_of, list_elem_of_filter in Hl as [[Hzid Hlt] Hz].
    assert (z = y) as -> by (apply (ids_inj r); congruence).
    by rewrite decide_True.
  - apply last_None in Hl. rewrite decide_False; [done|].
    intros Hlt. by eapply (filter_nil_not_elem_of (overrides x) r y).
Qed.

Lemma getTimestamp_stated (item : Item.t) :
  Item.lastModified item ≠ Some 0 →
  Item.timeEquivalent item ≠ Some 0 →
  getTimestamp item = statedTimestamp item.
Proof.
  unfold getTimestamp, statedTimestamp, num_or, truthy_num.
  destruct item as [i [lm|] [te|] [ca|] d n ds am]; simpl; intros H1 H2;
    repeat (case_decide; subst; simpl); congruence.
Qed.

Lemma mergeById_tie_break added updated (l r : list Item.t) (x y : Item.t) :
  NoDup (ids l) → NoDup (ids r) → x ∈ l → y ∈ r → Item.id x = Item.id y →
  winner x y ∈ (mergeById added updated l r).1 ∧
  ∀ z, z ∈ (mergeById added updated l r).1 → Item.id z = Item.id x →
       z = winner x y.
Proof.
  intros Hl Hr Hx Hy Hid. rewrite mergeById_closed_form by done.
  rewrite <- (resolve_unique r x y) by done. split.
  - apply elem_of_app; left. by apply list_elem_of_fmap_2.
  - intros z Hz Hzid. apply elem_of_app in Hz as [Hz|Hz].
    + apply list_elem_of_fmap in Hz as (x' & -> & Hx').
      rewrite resolve_id in Hzid. by rewrite (ids_inj l x' x).
    + apply list_elem_of_filter in Hz as [Hout _]. exfalso. apply Hout.
      rewrite Hzid. by apply elem_of_ids.
Qed.

(** C3 as amended. In a collection merged by id and timestamp, when each side
    holds an id at most once, a local entry [x] and a remote entry [y] with the
    same id (user-created ones, for categories) leave exactly one entry with
    that id in the merged collection: [y] when [getTimestamp y] is strictly
    larger than [getTimestamp x], and [x] otherwise. [getTimestamp] is the
    first of [lastModified], [timeEquivalent], [createdAt] that is present
    and not zero, else zero ([getTimestamp_stated] relates it to the
    specification's wording). *)
Theorem tie_break (L R : snapshot) (res : merge_result) (c : collection)
    (x y : Item.t) :
  mergeWalletData L R = Some res →
  timestamped c →
  NoDup (ids (entries (field c L))) →
  NoDup (ids (entries (field c R))) →
  x ∈ entries (field c L) →
  y ∈ entries (field c R) →
  Item.id x = Item.id y →
  (c = Categories → Item.isDefault x = false ∧ Item.isDefault y = false) →
  winner x y ∈ entries (field c (merged res)) ∧
  ∀ z, z ∈ entries (field c (merged res)) → Item.id z = Item.id x →
       z = winner x y.
Proof.
  intros Hres Hc HndL HndR Hx Hy Hid Hcat.
  apply mergeWalletData_inv in Hres as [Hf _].
  destruct (Hf c) as [lg Hm]. unfold mergeCollection in Hm.
  destruct (field c R) as [|b|r]; simpl in Hy;
    [by apply elem_of_nil in Hy|by apply elem_of_nil in Hy|].
  destruct (field c L) as [|b|l]; simpl in Hx;
    [by apply elem_of_nil in Hx|by apply elem_of_nil in Hx|].
  simpl in *.
  destruct c; unfold mergeOf in Hm; cbn [field] in *; try (by destruct Hc);
    try (match type of Hm with
         | context [mergeById ?a ?u l r] =>
             pose proof (mergeById_tie_break a u l r x y HndL HndR Hx Hy Hid) as Ht;
             destruct (mergeById a u l r) as [m lg']
         end; injection Hm as <- _; exact Ht).
  (* categories *)
  destruct (Hcat eq_refl) as [Hdx Hdy].
  pose proof (mergeCategories_fst l r) as Hfst.
  destruct (mergeCategories l r) as [m lg']. injection Hm as <- _.
  simpl in *. subst m.
  destruct (mergeById_tie_break
              (λ r, AddedUserCategory (Item.name r))
              (λ r, UpdatedUserCategory (Item.name r))
              (filter (λ c, Item.isDefault c = false) l)
              (filter (λ c, Item.isDefault c = false) r) x y)
    as [Hin Huniq]; try (by apply NoDup_ids_filter);
    try (by apply list_elem_of_filter); [done|].
  split.
  - apply elem_of_app; by right.
  - intros z Hz Hzid. apply elem_of_app in Hz as [Hz|Hz]; [|by apply Huniq].
    apply list_elem_of_filter in Hz as [Hdz Hz].
    rewrite (ids_inj l z x) in Hdz by done. congruence.
Qed.


(** ** Merging a snapshot with itself *)

Lemma filter_none {A} (P : A → Prop) `{∀ x, Decision (P x)} (l : list A) :
  (∀ x, x ∈ l → ¬ P x) → filter P l = [].
Proof.
  induction l as [|x l IH]; [done|]. intros Hl. rewrite filter_cons.
  rewrite decide_False by (apply Hl; constructor).
  apply IH. intros y Hy. apply Hl. by constructor.
Qed.

Lemma winner_self (x : Item.t) : winner x x = x.
Proof. unfold winner. by destruct (decide _). Qed.

Lemma mergeById_self added updated (l : list Item.t) :
  NoDup (ids l) → (mergeById added updated l l).1 = l.
Proof.
  intros Hnd. rewrite mergeById_closed_form by done.
  rewrite filter_none, app_nil_r.
  - rewrite <- (list_fmap_id l) at 3. apply list_fmap_ext. intros i x Hx. simpl.
    rewrite (resolve_unique l x x); [apply winner_self|done| |done].
    by eapply list_elem_of_lookup_2.
  - intros x Hx Hout. by apply Hout, elem_of_ids.
Qed.

Lemma mergeAppendOnly_self (l : list Item.t) : (mergeAppendOnly l l).1 = l.
Proof.
  rewrite mergeAppendOnly_closed_form, filter_none; [by rewrite app_nil_r|].
  intros x Hx Hout. by apply Hout, elem_of_ids.
Qed.

Lemma num_or_zero (a : option Z) : num_or a 0 = default 0 a.
Proof.
  unfold num_or, truthy_num. destruct a as [z|]; [|done].
  by destruct (decide (z = 0)) as [->|].
Qed.

Lemma mergeWalletData_self_returns (S : snapshot) :
  is_Some (mergeWalletData S S).
Proof.
  destruct (mergeWalletData S S) as [res|] eqn:Hres; [by eexists|].
  apply mergeWalletData_throws_iff in Hres as (c & Hc & l & Hl). congruence.
Qed.

(** C2 as amended. Merging a snapshot in which no id occurs twice in a
    collection with itself returns a result; every collection other than the
    categories, the emergency fund and the export time are those of the
    snapshot; the categories are the snapshot's with the default ones moved
    to the front; the profile is the snapshot's with [lastModified] set,
    to zero when it was missing. *)
Theorem merge_self (S : snapshot) :
  (∀ c, timestamped c → NoDup (ids (entries (field c S)))) →
  ∃ res, mergeWalletData S S = Some res ∧
         (∀ c, c ≠ Categories → field c (merged res) = field c S) ∧
         categories (merged res) = defaultsFirst (categories S) ∧
         emergencyFund (merged res) = emergencyFund S ∧
         exportedAt (merged res) = exportedAt S ∧
         userProfile (merged res) = stamped <$> userProfile S.
Proof.
  intros Hnd. destruct (mergeWalletData_self_returns S) as [res Hres].
  exists res. split; [done|].
  apply mergeWalletData_inv in Hres as (Hf & Hef & Hup & Hex & _).
  assert (∀ c, timestamped c → ∀ l, field c S = Items l → NoDup (ids l)) as Hnd'.
  { intros c Hc l Hl. specialize (Hnd c Hc). by rewrite Hl in Hnd. }
  repeat split.
  - intros c Hc. destruct (Hf c) as [lg Hm].
    destruct (field c S) as [|b|l] eqn:HS;
      [by injection Hm|by injection Hm|].
    rewrite mergeCollection_Items in Hm. injection Hm as <- _. f_equal.
    destruct c; unfold mergeOf; try done;
      try (apply mergeById_self; eapply Hnd'; [|exact HS]; done).
    apply mergeAppendOnly_self.
  - destruct (Hf Categories) as [lg Hm]. cbn [field] in Hm.
    destruct (categories S) as [|b|l] eqn:HS;
      [by injection Hm|by injection Hm|].
    rewrite mergeCollection_Items in Hm. injection Hm as <- _.
    cbn [mergeOf defaultsFirst]. f_equal.
    rewrite mergeCategories_fst, mergeById_self; [done|].
    apply NoDup_ids_filter. by apply (Hnd' Categories).
  - rewrite Hef. unfold mergeEmergencyFund.
    destruct (emergencyFund S) as [f|]; [|done].
    destruct (decide (num_or (Some f) 0 < f)) as [Hlt|_];
      [|by destruct (decide _)].
    rewrite num_or_zero in Hlt. simpl in Hlt. lia.
  - done.
  - rewrite Hup. unfold mergeUserProfile.
    destruct (userProfile S) as [p|]; [|done]. simpl. unfold stamped.
    do 2 f_equal.
    + apply (idemp_L (∪)).
    + by rewrite Z.max_id, num_or_zero.
Qed.

(** C2, the claim as stated fails: the categories come back reordered, a
    profile without [lastModified] comes back with one, and with an id that
    occurs several times an entry is overwritten. *)
Lemma merge_self_not_identity :
  (∃ res, mergeWalletData S_cat S_cat = Some res ∧
          categories (merged res) = Items [catDefault; catUser] ∧
          merged res ≠ S_cat) ∧
  (∃ res, mergeWalletData S_prof S_prof = Some res ∧
          (userProfile (merged res) ≫= Profile.lastModified) = Some 0 ∧
          merged res ≠ S_prof) ∧
  (∃ res, mergeWalletData S_dup S_dup = Some res ∧
          transactions (merged res)
          = Items [entry "a" (Some 5) None None "B";
                   entry "a" (Some 5) None None "B";
                   entry "a" (Some 3) None None "C"] ∧
          merged res ≠ S_dup).
Proof.
  repeat split.
  - eexists. split; [reflexivity|]. split; [reflexivity|].
    intros H. apply (f_equal categories) in H. discriminate H.
  - eexists. split; [reflexivity|]. split; [reflexivity|].
    intros H. apply (f_equal (λ s, userProfile s ≫= Profile.lastModified)) in H.
    discriminate H.
  - eexists. split; [reflexivity|]. split; [reflexivity|].
    intros H. apply (f_equal transactions) in H. discriminate H.
Qed.

(** ** Local entries that no remote entry overrides *)

Lemma resolve_no_override (r : list Item.t) (e : Item.t) :
  (∀ y, y ∈ r → Item.id y = Item.id e → ¬ getTimestamp e < getTimestamp y) →
  resolve r e = e.
Proof.
  intros Hr. unfold resolve. rewrite filter_none; [done|].
  intros y Hy [Hid Hlt]. by apply (Hr y).
Qed.

(** Overwriting the place of an entry with another id keeps [e]. *)
Lemma insert_keeps (m : list Item.t) (i : nat) (y z e : Item.t) :
  m !! i = Some z → Item.id z ≠ Item.id e → e ∈ m → e ∈ <[i := y]> m.
Proof.
  intros Hz Hne He. apply list_elem_of_lookup in He as [j Hj].
  apply (list_elem_of_lookup_2 _ j).
  rewrite list_lookup_insert_ne; [done|]. intros ->. congruence.
Qed.

(** One iteration keeps [e], unless the remote entry has the id of [e] and
    is newer than the entry the local map holds under that id. *)
Lemma mergeStep_keeps localMap added updated
    (st : list Item.t * list log_entry) (y e : Item.t) :
  e ∈ st.1 →
  (∀ x, Item.id y = Item.id e → localMap !! Item.id e = Some x →
        ¬ getTimestamp x < getTimestamp y) →
  e ∈ (mergeStep localMap added updated st y).1.
Proof.
  destruct st as [m lg]. simpl. intros He Hy.
  destruct (localMap !! Item.id y) as [x|] eqn:Hx; simpl.
  2:{ apply elem_of_app. by left. }
  destruct (decide (getTimestamp x < getTimestamp y)) as [Hlt|]; [|done].
  destruct (findIndex (Item.id y) m) as [i|] eqn:Hi; [|done]. simpl.
  apply findIndex_Some in Hi as (z & Hz & Hid & _).
  apply (insert_keeps m i y z e); [done| |done].
  intros Heq. rewrite Hid in Heq. apply (Hy x Heq); [by rewrite <- Heq|done].
Qed.

Lemma foldl_mergeStep_keeps localMap added updated (r : list Item.t)
    (st : list Item.t * list log_entry) (e : Item.t) :
  e ∈ st.1 →
  (∀ y x, y ∈ r → Item.id y = Item.id e → localMap !! Item.id e = Some x →
          ¬ getTimestamp x < getTimestamp y) →
  e ∈ (foldl (mergeStep localMap added updated) st r).1.
Proof.
  revert st. induction r as [|y r IH]; intros st He Hr; [done|]. simpl.
  apply IH.
  - apply mergeStep_keeps; [done|]. intros x Hid Hx.
    apply (Hr y x); [by left|done|done].
  - intros y' x Hy'. apply Hr. by right.
Qed.

(** A local entry stays in the merged array when no remote entry with its id
    is newer than a local entry with its id; ids may repeat. *)
Lemma mergeById_keeps_local added updated (l r : list Item.t) (e : Item.t) :
  e ∈ l →
  (∀ x y, x ∈ l → y ∈ r → Item.id x = Item.id e → Item.id y = Item.id e →
          ¬ getTimestamp x < getTimestamp y) →
  e ∈ (mergeById added updated l r).1.
Proof.
  intros He Hr. unfold mergeById. apply foldl_mergeStep_keeps; [done|].
  intros y x Hy Hid Hx. apply idMap_lookup_Some in Hx as [Hx Hidx].
  by apply Hr.
Qed.

(** A remote entry whose id is unknown locally is in the merged array. *)
Lemma mergeById_keeps_remote added updated (l r : list Item.t) (y : Item.t) :
  y ∈ r → Item.id y ∉ ids l → y ∈ (mergeById added updated l r).1.
Proof.
  intros Hy Hid. apply list_elem_of_split in Hy as (r1 & r2 & ->).
  apply idMap_lookup_None in Hid.
  unfold mergeById. rewrite foldl_app. simpl.
  apply foldl_mergeStep_keeps.
  - destruct (foldl _ _ r1) as [m lg]. simpl. rewrite Hid. simpl.
    apply elem_of_app. right. by apply list_elem_of_singleton.
  - intros y' x _ _ Hx. congruence.
Qed.

Lemma mergeOf_keeps_local (c : collection) (l r : list Item.t) (e : Item.t) :
  e ∈ l →
  (c = DebtCreditTransactions ∨
   ∀ x y, x ∈ l → y ∈ r → Item.id x = Item.id e → Item.id y = Item.id e →
          ¬ getTimestamp x < getTimestamp y) →
  e ∈ (mergeOf c l r).1.
Proof.
  intros He Hr.
  destruct c; simpl;
    try (destruct Hr as [?|Hr]; [done|]; by apply mergeById_keeps_local).
  - rewrite mergeCategories_fst. apply elem_of_app.
    destruct Hr as [?|Hr]; [done|].
    destruct (Item.isDefault e) eqn:Hd.
    + left. by apply list_elem_of_filter.
    + right. apply mergeById_keeps_local.
      * by apply list_elem_of_filter.
      * intros x y Hx Hy. apply list_elem_of_filter in Hx as [_ Hx].
        apply list_elem_of_filter in Hy as [_ Hy]. by apply Hr.
  - rewrite mergeAppendOnly_closed_form. apply elem_of_app. by left.
Qed.

Lemma mergeOf_keeps_remote (c : collection) (l r : list Item.t) (y : Item.t) :
  y ∈ r → Item.id y ∉ ids l →
  ¬ (c = Categories ∧ Item.isDefault y = true) →
  y ∈ (mergeOf c l r).1.
Proof.
  intros Hy Hid Hd.
  destruct c; simpl; try (by apply mergeById_keeps_remote).
  - rewrite mergeCategories_fst. apply elem_of_app. right.
    apply mergeById_keeps_remote.
    + apply list_elem_of_filter. split; [|done].
      destruct (Item.isDefault y); [|done]. exfalso. by apply Hd.
    + intros Hin. apply Hid. unfold ids in *.
      apply list_elem_of_fmap in Hin as (x & -> & Hx).
      apply list_elem_of_filter in Hx as [_ Hx]. by apply list_elem_of_fmap_2.
  - rewrite mergeAppendOnly_closed_form. apply elem_of_app. right.
    by apply list_elem_of_filter.
Qed.

(** A local entry that is [notOutdated] is part of the merged collection. *)
Lemma local_entry_survives (L R : snapshot) (res : merge_result)
    (c : collection) (e : Item.t) :
  mergeWalletData L R = Some res →
  e ∈ entries (field c L) →
  notOutdated c L R e →
  e ∈ entries (field c (merged res)).
Proof.
  intros Hres He Hr. apply mergeWalletData_inv in Hres as [Hf _].
  destruct (Hf c) as [lg Hm]. unfold notOutdated in Hr.
  destruct (field c R) as [|b|r]; [by injection Hm as <- _..|].
  destruct (field c L) as [|b|l];
    [by apply elem_of_nil in He|by apply elem_of_nil in He|].
  rewrite mergeCollection_Items in Hm. injection Hm as <- _.
  by apply mergeOf_keeps_local.
Qed.

(** A remote entry whose id is unknown locally is part of the merged
    collection, remote default categories apart. *)
Lemma remote_entry_arrives (L R : snapshot) (res : merge_result)
    (c : collection) (y : Item.t) :
  mergeWalletData L R = Some res →
  y ∈ entries (field c R) →
  Item.id y ∉ ids (entries (field c L)) →
  ¬ (c = Categories ∧ Item.isDefault y = true) →
  y ∈ entries (field c (merged res)).
Proof.
  intros Hres Hy Hid Hd. apply mergeWalletData_inv in Hres as [Hf _].
  destruct (Hf c) as [lg Hm]. unfold mergeCollection in Hm.
  destruct (field c R) as [|b|r];
    [by apply elem_of_nil in Hy|by apply elem_of_nil in Hy|].
  destruct (localArray (field c L)) as [l|] eqn:HL; simpl in Hm; [|done].
  apply localArray_entries in HL. rewrite HL in Hid.
  pose proof (mergeOf_keeps_remote c l r y Hy Hid Hd) as Hk.
  destruct (mergeOf c l r) as [m lg']. injection Hm as <- _. done.
Qed.

(** Every returned merge treats the local edits as [localEditsAfterMerge]
    says. *)
Lemma mergeWalletData_localEdits (L R : snapshot) (res : merge_result) :
  mergeWalletData L R = Some res → localEditsAfterMerge L R (merged res).
Proof.
  intros Hres. pose proof Hres as Hinv.
  apply mergeWalletData_inv in Hinv as (_ & Hef & Hup & _).
  split; [|split; [|split]].
  - intros col e He. split.
    + apply (merged_ids_cover L R res col e Hres). by left.
    + by apply local_entry_survives.
  - intros col y. by apply remote_entry_arrives.
  - rewrite Hef. unfold mergeEmergencyFund.
    destruct (emergencyFund R) as [b|]; [|done].
    destruct (decide (num_or (emergencyFund L) 0 < b)); [done|].
    by destruct (decide _).
  - rewrite Hup. unfold mergeUserProfile.
    destruct (userProfile R) as [rp|]; [|done]. simpl.
    eexists. split; [reflexivity|]. simpl. intros k.
    destruct (Profile.fields rp !! k) as [v|] eqn:Hk.
    + by apply lookup_union_Some_l.
    + rewrite lookup_union_r by done.
      destruct (userProfile L) as [lp|]; simpl; [done|apply lookup_empty].
Qed.

(** The snapshot handed to the merge differs from the wallet in its export
    time only. *)
Lemma localEdits_localDataOf (walletData R M : snapshot) (now : Z) :
  localEditsAfterMerge (localDataOf walletData now) R M →
  localEditsAfterMerge walletData R M.
Proof.
  assert (∀ c, field c (localDataOf walletData now) = field c walletData) as Hf
    by by intros [].
  unfold localEditsAfterMerge, notOutdated. simpl.
  intros (H1 & H2 & H3 & H4). split; [|split; [|split]]; [| |done|done].
  - intros col e He. specialize (H1 col e). rewrite !Hf in H1. by apply H1.
  - intros col y Hy Hid. specialize (H2 col y). rewrite !Hf in H2.
    by apply H2.
Qed.

(** ** The orchestrator *)

Section OrchestratorProperties.
Context {platform : Platform}.

Ltac run :=
  unfold tryCatch, await, mutation, perform, toast, setSyncState, getItem,
    setItem, removeItem, throw, mbind, action_bind, mret, action_ret in *;
  simpl in *.

Lemma str_or_nonempty (a : option string) (b : string) :
  b ≠ "" → str_or a b ≠ "".
Proof. unfold str_or. destruct a as [s|]; [|done]. by case_decide. Qed.

(** [getDeviceInfo] returns and only writes the two device keys. *)
Lemma getDeviceInfo_frame (env : uploadEnv) (w : world) :
  ∃ info w', getDeviceInfo env w = (Returned info, w') ∧
             state w' = state w ∧ calls w' = calls w ∧
             ∀ k, k ≠ "convex_device_id" → k ≠ "convex_device_name" →
                  localStorage w' !! k = localStorage w !! k.
Proof.
  unfold getDeviceInfo. run.
  destruct (decide (str_or (localStorage w !! "convex_device_id") "" = ""));
    simpl;
    match goal with
    | |- context [decide (str_or ?a "" = "")] =>
        destruct (decide (str_or a "" = ""))
    end; simpl; do 2 eexists; (split; [reflexivity|]); simpl;
    repeat split; intros k H1 H2; by rewrite ?lookup_insert_ne.
Qed.


(** What [getDeviceInfo] returns depends on the storage only. *)
Lemma getDeviceInfo_value (env : uploadEnv) (w w0 : world) :
  localStorage w0 = localStorage w →
  (getDeviceInfo env w0).1 = (getDeviceInfo env w).1.
Proof.
  intros H. unfold getDeviceInfo. run. rewrite H.
  destruct (decide (str_or (localStorage w !! "convex_device_id") "" = ""));
    simpl; rewrite ?H;
    match goal with
    | |- context [decide (str_or ?a "" = "")] =>
        destruct (decide (str_or a "" = ""))
    end; reflexivity.
Qed.

Ltac failed_upload :=
  do 2 eexists; (split; [reflexivity|]); simpl;
  (split; [intros [?|[?|?]]; congruence|]);
  intros _ _ _ _; simpl;
  repeat match goal with H : state _ = _ |- _ => rewrite H; clear H end;
  simpl;
  split; [eexists; split; [reflexivity|];
          first [by apply str_or_nonempty | by case_decide | done]|];
  split; [done|];
  split; [first [done | match goal with H : ∀ k, _ |- _ => by apply H end]|];
  split; [done|]; congruence.

(** C7. [syncToConvex] always resolves. When the user is not authenticated
    or the render has sync disabled it resolves to a failure and changes
    nothing: no call is made, the state and the storage are as before. When
    an attempted upload fails, the state holds a non-empty error message,
    [lastSyncTime] and the stored [convex_last_sync_time] are as before, and
    [isEnabled] is as before, hence true when the render's view of the state
    is current. *)
Theorem syncToConvex_failure (r : render) (password : option string)
    (env : uploadEnv) (w : world) :
  ∃ res w', syncToConvex r password env w = (Returned res, w') ∧
    ((isAuthenticated r = false ∨ user r = None ∨
      SyncState.isEnabled (syncState r) = false) →
     Result.success res = false ∧ w' = w) ∧
    (isAuthenticated r = true → is_Some (user r) →
     SyncState.isEnabled (syncState r) = true →
     Result.success res = false →
     (∃ msg, SyncState.error (state w') = Some msg ∧ msg ≠ "") ∧
     SyncState.lastSyncTime (state w') = SyncState.lastSyncTime (state w) ∧
     localStorage w' !! "convex_last_sync_time"
       = localStorage w !! "convex_last_sync_time" ∧
     SyncState.isEnabled (state w') = SyncState.isEnabled (state w) ∧
     (syncState r = state w → SyncState.isEnabled (state w') = true)).
Proof.
  unfold syncToConvex.
  destruct (user r) as [u|] eqn:Hu.
  2:{ do 2 eexists. split; [reflexivity|]. split; [done|].
      intros _ [? ?]; done. }
  destruct (isAuthenticated r) eqn:Ha; simpl.
  2:{ do 2 eexists. split; [reflexivity|]. split; [done|]. done. }
  destruct (SyncState.isEnabled (syncState r)) eqn:He; simpl.
  2:{ do 2 eexists. split; [reflexivity|]. split; [done|]. done. }
  unfold encryptWalletData. run.
  destruct (categories (wallet r)) as [|b|l]; simpl;
    [failed_upload|failed_upload|].
  destruct (deriveKeyFromPin _ _) as [k|]; simpl; [|failed_upload].
  destruct (encryptData _ _) as [enc|]; simpl; [|failed_upload].
  destruct (generateIntegrityHash _) as [h|]; simpl; [|failed_upload].
  match goal with
  | |- context [getDeviceInfo env ?w0] =>
      destruct (getDeviceInfo_frame env w0)
        as ([deviceId deviceName] & w3 & -> & Hst & Hcalls & Hls)
  end; simpl in *.
  destruct (storeOutcome env) as [m1|]; simpl; [failed_upload|].
  destruct (metadataOutcome env) as [m2|]; simpl; [failed_upload|].
  do 2 eexists. split; [reflexivity|]. simpl.
  split; [intros [?|[?|?]]; congruence|]. done.
Qed.

Ltac no_upload :=
  do 3 eexists; (split; [reflexivity|]); simpl;
  repeat match goal with H : calls _ = _ |- _ => rewrite H; clear H end;
  rewrite <- ?app_assoc; simpl;
  (split; [first [reflexivity | symmetry; apply app_nil_r]|]);
  split; [by repeat constructor|done].

(** The calls of [syncToConvex]: never an import; on success the two
    mutations, in that order, the first carrying the ciphertext and the
    digest of [uploadedData], and the upload time is stored. *)
Lemma syncToConvex_calls (r : render) (password : option string)
    (env : uploadEnv) (w : world) :
  ∃ res w' new, syncToConvex r password env w = (Returned res, w') ∧
    calls w' = calls w ++ new ∧
    Forall (λ c, isImport c = false) new ∧
    (Result.success res = true →
     ∃ u l key encrypted hash deviceId deviceName,
       user r = Some u ∧ isAuthenticated r = true ∧
       SyncState.isEnabled (syncState r) = true ∧
       categories (wallet r) = Items l ∧
       (let data := uploadedData (wallet r)
                      (filter (λ cat, Item.isDefault cat = false) l)
                      (exportTime env) in
        deriveKeyFromPin (syncPasswordOf u password)
          (generateConsistentSalt (User.id u) (User.email u)) = Some key ∧
        encryptData (JSON_stringify data) key = Some encrypted ∧
        generateIntegrityHash (JSON_stringify data) = Some hash) ∧
       (getDeviceInfo env w).1 = Returned (deviceId, deviceName) ∧
       new = [StoreWalletData (User.id u) deviceId encrypted hash;
              UpdateSyncMetadata (User.id u) deviceId deviceName] ∧
       localStorage w' !! "convex_last_sync_time"
         = Some (toString (uploadTime env))).
Proof.
  unfold syncToConvex.
  destruct (user r) as [u|] eqn:Hu; [|no_upload].
  destruct (isAuthenticated r) eqn:Ha; simpl; [|no_upload].
  destruct (SyncState.isEnabled (syncState r)) eqn:He; simpl; [|no_upload].
  unfold encryptWalletData. run.
  destruct (categories (wallet r)) as [|b|l] eqn:Hcat; simpl;
    [no_upload|no_upload|].
  destruct (deriveKeyFromPin _ _) as [k|] eqn:Hk; simpl; [|no_upload].
  destruct (encryptData _ _) as [enc|] eqn:Henc; simpl; [|no_upload].
  destruct (generateIntegrityHash _) as [h|] eqn:Hh; simpl; [|no_upload].
  match goal with
  | |- context [getDeviceInfo env ?w0] =>
      pose proof (getDeviceInfo_value env w w0 eq_refl) as Hdev;
      destruct (getDeviceInfo_frame env w0)
        as ([deviceId deviceName] & w3 & Hinfo & Hst & Hcalls & Hls);
      rewrite Hinfo in Hdev |- *
  end; simpl in *.
  destruct (storeOutcome env) as [m1|]; simpl; [no_upload|].
  destruct (metadataOutcome env) as [m2|]; simpl; [no_upload|].
  do 3 eexists. split; [reflexivity|]. simpl. rewrite Hcalls.
  rewrite <- app_assoc. simpl. split; [reflexivity|].
  split; [by repeat constructor|]. intros _.
  exists u, l, k, enc, h, deviceId, deviceName.
  do 4 (split; [done|]). split; [by repeat split|].
  split; [symmetry; exact Hdev|].
  split; [done|]. by rewrite lookup_insert_eq.
Qed.

Lemma decryptWalletData_decrypted (u : User.t) (encrypted password : string)
    (w : world) :
  decryptWalletData u encrypted password w
  = (match decrypted u encrypted password with
     | Some remoteData => Returned remoteData
     | None => Thrown "Decryption failed"
     end, w).
Proof.
  unfold decryptWalletData, decrypted. run.
  destruct (deriveKeyFromPin _ _) as [k|]; simpl; [|done].
  destruct (decryptData _ _) as [t|]; simpl; [|done].
  by destruct (JSON_parse t).
Qed.

(** The calls of [syncFromConvex] when the render has sync enabled: the only
    wallet ever imported is the merge of the render's wallet with the
    decrypted remote snapshot. *)
Lemma syncFromConvex_calls (r : render) (password : option string)
    (envE : uploadEnv) (envD : downloadEnv) (w : world) (u : User.t) :
  user r = Some u → isAuthenticated r = true →
  SyncState.isEnabled (syncState r) = true →
  ∃ d w' rest, syncFromConvex r password envE envD w = (Returned d, w') ∧
    calls w' = calls w ++ rest ∧
    ∀ m, ImportData m ∈ rest →
      ∃ latest remoteData res,
        getLatestWalletData r = Some latest ∧
        decrypted u (Remote.encryptedData latest) (syncPasswordOf u password)
          = Some remoteData ∧
        mergeWalletData (localDataOf (wallet r) (localExportTime envD)) remoteData
          = Some res ∧
        m = merged res.
Proof.
  intros Hu Ha He. unfold syncFromConvex. rewrite Hu, Ha, He. simpl.
  unfold importData. run.
  destruct (getLatestWalletData r) as [latest|] eqn:Hlatest; simpl.
  2:{ do 3 eexists. split; [reflexivity|]. simpl.
      split; [symmetry; apply app_nil_r|]. intros m Hm.
      by apply elem_of_nil in Hm. }
  rewrite decryptWalletData_decrypted.
  destruct (decrypted u _ _) as [remoteData|] eqn:Hdec; simpl.
  2:{ do 3 eexists. split; [reflexivity|]. simpl.
      split; [symmetry; apply app_nil_r|]. intros m Hm.
      by apply elem_of_nil in Hm. }
  destruct (mergeWalletData _ remoteData) as [res|] eqn:Hres; simpl.
  2:{ do 3 eexists. split; [reflexivity|]. simpl.
      split; [symmetry; apply app_nil_r|]. intros m Hm.
      by apply elem_of_nil in Hm. }
  assert (∀ m rest', (∀ c, c ∈ rest' → isImport c = false) →
            ImportData m ∈ ImportData (merged res) :: rest' →
            ∃ latest0 remoteData0 res0,
              Some latest = Some latest0 ∧
              decrypted u (Remote.encryptedData latest0)
                        (syncPasswordOf u password) = Some remoteData0 ∧
              mergeWalletData (localDataOf (wallet r) (localExportTime envD))
                              remoteData0 = Some res0 ∧
              m = merged res0) as Hone.
  { intros m rest' Hrest Hm. apply elem_of_cons in Hm as [[= ->]|Hm].
    - exists latest, remoteData, res. by repeat split.
    - by apply Hrest in Hm. }
  destruct (importAnswer envD) as [[]|msg]; simpl;
    [destruct (decide (mergeLog res = [])); simpl|..];
    do 3 eexists; (split; [reflexivity|]); simpl;
    rewrite <- ?app_assoc; simpl; (split; [reflexivity|]);
    intros m Hm; (apply (Hone m _) in Hm; [exact Hm|]);
    intros c Hc;
    repeat (apply elem_of_cons in Hc as [->|Hc]; [done|]);
    by apply elem_of_nil in Hc.
Qed.

Lemma remoteIsNewer_true (lastSyncTime : option string) (remoteTime : option Z) :
  remoteIsNewer lastSyncTime remoteTime = true →
  str_or lastSyncTime "" = "" ∨
  ∃ l t, parseInt (str_or lastSyncTime "") = Some l ∧
         remoteTime = Some t ∧ l < t.
Proof.
  unfold remoteIsNewer. intros H. apply orb_true_iff in H as [H|H].
  - left. by apply bool_decide_eq_true in H.
  - right. unfold truthy_num in H. destruct remoteTime as [t|]; [|done].
    destruct (decide (t = 0)); [done|].
    destruct (parseInt _) as [l|]; [|done].
    apply bool_decide_eq_true in H. by exists l, t.
Qed.

Lemma field_localDataOf (c : collection) (walletData : snapshot) (now : Z) :
  field c (localDataOf walletData now) = field c walletData.
Proof. by destruct c. Qed.


(** C8 as amended. [disableSync] always resolves to a success; afterwards the
    state is the initial one and the stored enabled flag, passphrase and
    last-sync time are gone. Every other stored key is left as it was, among
    them the passphrase's salt, the pause flag and the device identity. *)
Theorem disableSync_resets (w : world) :
  ∃ w', disableSync w = (Returned Result.ok, w') ∧
    state w' = SyncState.initial ∧
    localStorage w' !! "convex_sync_enabled" = None ∧
    localStorage w' !! "convex_sync_password" = None ∧
    localStorage w' !! "convex_last_sync_time" = None ∧
    (∀ k, k ≠ "convex_sync_enabled" → k ≠ "convex_sync_password" →
          k ≠ "convex_last_sync_time" →
          localStorage w' !! k = localStorage w !! k) ∧
    localStorage w' !! "convex_sync_salt" = localStorage w !! "convex_sync_salt" ∧
    localStorage w' !! "convex_sync_paused"
      = localStorage w !! "convex_sync_paused".
Proof.
  eexists. split; [reflexivity|]. simpl. split; [done|].
  split; [rewrite !lookup_delete_ne by done; apply lookup_delete_eq|].
  split; [rewrite !lookup_delete_ne by done; apply lookup_delete_eq|].
  split; [apply lookup_delete_eq|].
  split; [intros k H1 H2 H3; by rewrite !lookup_delete_ne by done|].
  split; by rewrite !lookup_delete_ne by done.
Qed.

(** C10. The salt is the first [min 32 n] bytes of the UTF-8 encoding, [n]
    bytes long, of ["<userId>_<userEmail>_convex_sync_salt"]: it is the whole
    encoding, hence shorter than 32 bytes, when [n < 32]; nothing is hashed.
    It depends on the id and the email only, so two user objects with the
    same id and email get the same salt and, for a given passphrase, the
    same derived key. *)
Theorem generateConsistentSalt_prefix (u : User.t) :
  let data :=
    encode (User.id u +:+ "_" +:+ User.email u +:+ "_convex_sync_salt") in
  let n := length data in
  let salt := generateConsistentSalt (User.id u) (User.email u) in
  salt = take (n `min` 32) data ∧
  length salt = (n `min` 32)%nat ∧
  ((n < 32)%nat → salt = data ∧ (length salt < 32)%nat) ∧
  ∀ u' password,
    User.id u' = User.id u → User.email u' = User.email u →
    generateConsistentSalt (User.id u') (User.email u') = salt ∧
    deriveKeyFromPin password
      (generateConsistentSalt (User.id u') (User.email u'))
    = deriveKeyFromPin password salt.
Proof.
  intros data n salt. subst salt n. unfold generateConsistentSalt. fold data.
  split; [|split; [|split]].
  - destruct (decide (length data ≤ 32)%nat) as [Hle|Hgt].
    + rewrite Nat.min_l by done. by rewrite !take_ge.
    + by rewrite Nat.min_r by lia.
  - rewrite length_take. lia.
  - intros Hlt. rewrite take_ge by lia. done.
  - intros u' password Hid Hemail. subst data. by rewrite Hid, Hemail.
Qed.

End OrchestratorProperties.

(** ** The claims on concrete inputs *)

Ltac in_list := repeat first [apply list_elem_of_here | apply list_elem_of_further].

(** Scenario A of the specification. *)
Example scenario_A : mergeWalletData localA remoteA = Some resultA.
Proof. reflexivity. Qed.

(** Scenario B of the specification. *)
Example scenario_B : mergeWalletData (withFund 500) (withFund 300) = Some resultB.
Proof. reflexivity. Qed.

Lemma merge_append_safety_witness :
  mergeWalletData localA remoteA = Some resultA ∧
  txn "2" 3 1 ∈ entries (field Transactions remoteA) ∧
  Item.id (txn "2" 3 1) ∈ ids (entries (field Transactions (merged resultA))).
Proof.
  split; [reflexivity|]. split; [simpl; in_list|].
  apply (merge_append_safety localA remoteA resultA Transactions (txn "2" 3 1)).
  - reflexivity.
  - right. split; [simpl; in_list|]. intros [Hc _]. discriminate Hc.
Defined.

Lemma merge_self_witness :
  (∀ c, timestamped c → NoDup (ids (entries (field c sampleWallet)))) ∧
  ∃ res, mergeWalletData sampleWallet sampleWallet = Some res ∧
         (∀ c, c ≠ Categories → field c (merged res) = field c sampleWallet) ∧
         categories (merged res) = defaultsFirst (categories sampleWallet) ∧
         emergencyFund (merged res) = emergencyFund sampleWallet ∧
         exportedAt (merged res) = exportedAt sampleWallet ∧
         userProfile (merged res) = stamped <$> userProfile sampleWallet.
Proof.
  assert (∀ c, timestamped c → NoDup (ids (entries (field c sampleWallet)))) as H.
  { intros c _. destruct c; simpl; repeat constructor;
      rewrite ?list_elem_of_In; simpl; intros Hin;
      repeat (destruct Hin as [Hin|Hin]; [discriminate Hin|]); exact Hin. }
  split; [exact H|]. exact (merge_self sampleWallet H).
Defined.

Lemma tie_break_witness :
  mergeWalletData localA remoteA = Some resultA ∧
  winner (txn "1" 10 5) (txn "1" 12 9) = txn "1" 12 9 ∧
  winner (txn "1" 10 5) (txn "1" 12 9) ∈ entries (field Transactions (merged resultA)) ∧
  ∀ z, z ∈ entries (field Transactions (merged resultA)) →
       Item.id z = Item.id (txn "1" 10 5) →
       z = winner (txn "1" 10 5) (txn "1" 12 9).
Proof.
  split; [reflexivity|]. split; [reflexivity|].
  apply (tie_break localA remoteA resultA Transactions (txn "1" 10 5) (txn "1" 12 9)).
  - reflexivity.
  - intros Hc. discriminate Hc.
  - simpl. repeat constructor. rewrite list_elem_of_In. simpl. tauto.
  - simpl. repeat constructor; rewrite ?list_elem_of_In; simpl; intros Hin;
      repeat (destruct Hin as [Hin|Hin]; [discriminate Hin|]); exact Hin.
  - simpl. in_list.
  - simpl. in_list.
  - reflexivity.
  - intros Hc. discriminate Hc.
Defined.

Lemma emergencyFund_max_witness :
  mergeWalletData (withFund 500) (withFund 300) = Some resultB ∧
  emergencyFund (merged resultB) = Some (Z.max 500 300) ∧
  (500 < 300 → UpdatedEmergencyFund 300 500 ∈ mergeLog resultB) ∧
  (300 < 500 → KeptLocalEmergencyFund 500 300 ∈ mergeLog resultB) ∧
  (500 = 300 → ¬ recordsFundWinner (mergeLog resultB)).
Proof.
  split; [reflexivity|].
  apply (emergencyFund_max (withFund 500) (withFund 300) resultB 500 300);
    reflexivity.
Defined.

Lemma debtCreditTransactions_append_only_witness :
  mergeWalletData (withLedger [txn "1" 10 5])
                  (withLedger [txn "1" 12 9; txn "2" 3 1]) = Some resultLedger ∧
  ∃ l, localArray (Items [txn "1" 10 5]) = Some l ∧
       debtCreditTransactions (merged resultLedger)
       = Items (l ++ filter (λ y, Item.id y ∉ ids l) [txn "1" 12 9; txn "2" 3 1]) ∧
       (∀ i x, l !! i = Some x →
               entries (debtCreditTransactions (merged resultLedger)) !! i = Some x) ∧
       (∀ y, y ∈ [txn "1" 12 9; txn "2" 3 1] → Item.id y ∉ ids l →
             y ∈ entries (debtCreditTransactions (merged resultLedger))) ∧
       (∀ y, y ∈ [txn "1" 12 9; txn "2" 3 1] → Item.id y ∈ ids l →
             ∀ j, (length l ≤ j)%nat →
                  entries (debtCreditTransactions (merged resultLedger)) !! j
                  ≠ Some y).
Proof.
  split; [reflexivity|].
  apply (debtCreditTransactions_append_only
           (withLedger [txn "1" 10 5])
           (withLedger [txn "1" 12 9; txn "2" 3 1]) resultLedger);
    reflexivity.
Defined.

Lemma merge_frame_witness :
  mergeWalletData localA (withFund 300)
    = Some (MergeResult
              (Snapshot None (Items [txn "1" 10 5]) Absent Absent Absent Absent
                        Absent Absent (Some 300) 0)
              [] [UpdatedEmergencyFund 300 0]) ∧
  transactions (Snapshot None (Items [txn "1" 10 5]) Absent Absent Absent Absent
                         Absent Absent (Some 300) 0)
    = transactions localA ∧
  userProfile (Snapshot None (Items [txn "1" 10 5]) Absent Absent Absent Absent
                        Absent Absent (Some 300) 0)
    = userProfile localA.
Proof.
  split; [reflexivity|].
  destruct (merge_frame localA (withFund 300) _ eq_refl) as (Hc & _ & Hp).
  split.
  - apply (Hc Transactions). intros r Hr. discriminate Hr.
  - apply Hp. reflexivity.
Defined.

(** C3, the claim as stated fails. With the timestamp read as the
    specification words it, the remote entry below is not strictly newer
    (0 against 3), yet it replaces the local one, because a [lastModified] of
    zero is skipped in favour of [timeEquivalent]. And when the remote array
    holds an id twice, the entry kept is the last one that is newer than the
    local entry, not the newest. *)
Lemma tie_break_as_stated_fails :
  (mergeWalletData localZero remoteZero
     = Some (MergeResult remoteZero [] [UpdatedTransaction "remote"]) ∧
   ¬ statedTimestamp (entry "a" (Some 3) None None "local")
     < statedTimestamp (entry "a" (Some 0) (Some 5) None "remote")) ∧
  (mergeWalletData localOne remoteTwice
     = Some (MergeResult
               (withTransactions [entry "a" (Some 7) None None "newer"]) []
               [UpdatedTransaction "newest"; UpdatedTransaction "newer"]) ∧
   statedTimestamp (entry "a" (Some 5) None None "local")
     < statedTimestamp (entry "a" (Some 9) None None "newest")).
Proof.
  split; (split; [reflexivity|]).
  - intros H. discriminate H.
  - reflexivity.
Qed.

(** C4, the claim as stated fails: with two equal funds the log holds no
    line telling which side was kept. *)
Lemma emergencyFund_tie_not_logged :
  ∃ res, mergeWalletData (withFund 500) (withFund 500) = Some res ∧
         emergencyFund (merged res) = Some 500 ∧
         mergeLog res = [] ∧
         ¬ recordsFundWinner (mergeLog res).
Proof.
  eexists. split; [reflexivity|]. simpl. repeat split.
  intros (e & He & _). by apply elem_of_nil in He.
Qed.

(** C8, the claim as stated fails: the passphrase's salt and the pause flag
    are still stored after [disableSync]. *)
Lemma disableSync_keeps_salt_and_pause_flag :
  ∃ w', disableSync pausedWorld = (Returned Result.ok, w') ∧
        localStorage w' !! "convex_sync_salt" = Some "c2FsdA==" ∧
        localStorage w' !! "convex_sync_paused" = Some "true".
Proof. eexists. split; [reflexivity|]. split; reflexivity. Qed.



Lemma syncToConvex_failure_witness :
  ∃ res w',
    @syncToConvex samplePlatform sampleRender None rejectedUpload sampleWorld
      = (Returned res, w') ∧
    Result.success res = false ∧
    (∃ msg, SyncState.error (state w') = Some msg ∧ msg ≠ "") ∧
    SyncState.lastSyncTime (state w') = SyncState.lastSyncTime (state sampleWorld) ∧
    localStorage w' !! "convex_last_sync_time"
      = localStorage sampleWorld !! "convex_last_sync_time" ∧
    SyncState.isEnabled (state w') = true.
Proof.
  destruct (@syncToConvex_failure samplePlatform sampleRender None
              rejectedUpload sampleWorld)
    as (res & w' & Hrun & _ & Hfail).
  assert (Result.success
            (match (@syncToConvex samplePlatform sampleRender None
                      rejectedUpload sampleWorld).1 with
             | Returned res => res
             | Thrown _ => Result.ok
             end) = false) as Hres
    by (vm_compute; reflexivity).
  rewrite Hrun in Hres. simpl in Hres.
  exists res, w'. split; [exact Hrun|]. split; [exact Hres|].
  destruct (Hfail eq_refl (ex_intro _ sampleUser eq_refl) eq_refl Hres)
    as (Herr & Htime & Hstored & _ & Henabled).
  split; [exact Herr|]. split; [exact Htime|]. split; [exact Hstored|].
  exact (Henabled eq_refl).
Defined.

Lemma generateConsistentSalt_prefix_witness :
  generateConsistentSalt "u1" "a@b.c" = encode "u1_a@b.c_convex_sync_salt" ∧
  (length (generateConsistentSalt "u1" "a@b.c") < 32)%nat ∧
  generateConsistentSalt (User.id (User.mk "u1" "a@b.c" "Bob"))
                         (User.email (User.mk "u1" "a@b.c" "Bob"))
    = generateConsistentSalt "u1" "a@b.c" ∧
  @deriveKeyFromPin samplePlatform "pin"
     (generateConsistentSalt (User.id (User.mk "u1" "a@b.c" "Bob"))
                             (User.email (User.mk "u1" "a@b.c" "Bob")))
    = @deriveKeyFromPin samplePlatform "pin" (generateConsistentSalt "u1" "a@b.c").
Proof.
  destruct (@generateConsistentSalt_prefix samplePlatform
              (User.mk "u1" "a@b.c" "Ann"))
    as (_ & _ & Hshort & Hsame).
  assert (length (encode "u1_a@b.c_convex_sync_salt") < 32)%nat as Hlt.
  { vm_compute. repeat constructor. }
  destruct (Hshort Hlt) as [Hall Hlen].
  destruct (Hsame (User.mk "u1" "a@b.c" "Bob") "pin" eq_refl eq_refl)
    as [Hsalt Hkey].
  split; [exact Hall|]. split; [exact Hlen|]. split; [exact Hsalt|exact Hkey].
Defined.

(** * Further properties of the merge engine *)

(** X1. On snapshots as [snapshot] describes them (both sides are objects,
    and the entries of their arrays are objects with an id)
    [mergeWalletData] throws exactly when some local collection is a truthy
    non-array while the remote snapshot carries that collection as an array;
    in particular it returns for every such remote snapshot when the local
    collections are arrays, missing or falsy. A remote payload that is
    [null], or an array holding a [null] entry, is not a [snapshot]: the
    code throws on those as well, and nothing is stated about them here. *)
Theorem mergeWalletData_throws_exactly (L R : snapshot) :
  (mergeWalletData L R = None ↔ throws L R) ∧
  (localArrays L → is_Some (mergeWalletData L R)).
Proof.
  split; [apply mergeWalletData_throws_iff|].
  intros HL. destruct (mergeWalletData L R) as [res|] eqn:Hres; [by eexists|].
  apply mergeWalletData_throws_iff in Hres as (c & Hc & _). by destruct (HL c).
Qed.

Lemma mergeWalletData_throws_exactly_witness :
  localArrays localA ∧ is_Some (mergeWalletData localA remoteA).
Proof.
  assert (localArrays localA) as H.
  { intros c Hc. destruct c; discriminate Hc. }
  split; [exact H|].
  exact (proj2 (mergeWalletData_throws_exactly localA remoteA) H).
Defined.

Lemma elem_of_insert_inv {A} (l : list A) (i : nat) (x z : A) :
  z ∈ <[i := x]> l → z = x ∨ z ∈ l.
Proof.
  intros Hz. apply list_elem_of_lookup in Hz as [j Hj].
  destruct (decide (i = j)) as [->|Hne].
  - destruct (decide (j < length l)%nat) as [Hlt|Hge].
    + rewrite list_lookup_insert_eq in Hj by done. left. congruence.
    + rewrite list_insert_ge in Hj by lia. right.
      by eapply list_elem_of_lookup_2.
  - rewrite list_lookup_insert_ne in Hj by done. right.
    by eapply list_elem_of_lookup_2.
Qed.

Lemma mergeById_from_inputs added updated (l r : list Item.t) (z : Item.t) :
  z ∈ (mergeById added updated l r).1 → z ∈ l ∨ z ∈ r.
Proof.
  induction r as [|y r IH] using rev_ind.
  - unfold mergeById; simpl. by left.
  - rewrite mergeById_snoc.
    destruct (mergeById added updated l r) as [m lg]; simpl in IH.
    assert (z ∈ m ∨ z = y → z ∈ l ∨ z ∈ r ++ [y]) as Hstep.
    { intros [Hz| ->].
      - destruct (IH Hz) as [?|?]; [by left|right].
        apply elem_of_app; by left.
      - right. apply elem_of_app; right. constructor. }
    unfold mergeStep. destruct (idMap l !! Item.id y) as [x0|].
    + destruct (decide _); [|simpl; by auto].
      destruct (findIndex _ _); simpl; [|by auto].
      intros Hz. apply elem_of_insert_inv in Hz. tauto.
    + simpl. intros Hz. apply elem_of_app in Hz as [Hz|Hz]; [by auto|].
      apply list_elem_of_singleton in Hz. by auto.
Qed.

Lemma mergeOf_from_inputs (c : collection) (l r : list Item.t) (z : Item.t) :
  z ∈ (mergeOf c l r).1 →
  z ∈ l ∨ (z ∈ r ∧ (c = Categories → Item.isDefault z = false)).
Proof.
  destruct c; simpl;
    try (intros Hz; apply mergeById_from_inputs in Hz as [?|?];
         [by left|by right]).
  - rewrite mergeCategories_fst. intros Hz.
    apply elem_of_app in Hz as [Hz|Hz].
    + left. by apply list_elem_of_filter in Hz as [_ ?].
    + apply mergeById_from_inputs in Hz as [Hz|Hz];
        apply list_elem_of_filter in Hz as [Hd Hz]; [by left|by right].
  - rewrite mergeAppendOnly_closed_form. intros Hz.
    apply elem_of_app in Hz as [Hz|Hz]; [by left|right].
    by apply list_elem_of_filter in Hz as [_ ?].
Qed.

(** X2. Nothing is made up: every entry of a merged collection is an entry
    of that collection in the local or in the remote snapshot, and a category
    taken from the remote snapshot is never a default one. *)
Theorem merged_entries_from_inputs (L R : snapshot) (res : merge_result)
    (c : collection) (z : Item.t) :
  mergeWalletData L R = Some res →
  z ∈ entries (field c (merged res)) →
  z ∈ entries (field c L) ∨
  (z ∈ entries (field c R) ∧ (c = Categories → Item.isDefault z = false)).
Proof.
  intros Hres. apply mergeWalletData_inv in Hres as [Hf _].
  destruct (Hf c) as [lg Hc]. unfold mergeCollection in Hc.
  destruct (field c R) as [|b|r] eqn:HR.
  - injection Hc as <- _. by left.
  - injection Hc as <- _. by left.
  - destruct (localArray (field c L)) as [l|] eqn:HL; simpl in Hc; [|done].
    apply localArray_entries in HL. rewrite HL.
    pose proof (mergeOf_from_inputs c l r z) as Hk.
    destruct (mergeOf c l r) as [m lg']. injection Hc as <- _.
    apply Hk.
Qed.

Lemma merged_entries_from_inputs_witness :
  mergeWalletData localA remoteA = Some resultA ∧
  txn "2" 3 1 ∈ entries (field Transactions (merged resultA)) ∧
  (txn "2" 3 1 ∈ entries (field Transactions localA) ∨
   (txn "2" 3 1 ∈ entries (field Transactions remoteA) ∧
    (Transactions = Categories → Item.isDefault (txn "2" 3 1) = false))).
Proof.
  split; [reflexivity|]. split; [simpl; in_list|].
  apply (merged_entries_from_inputs localA remoteA resultA Transactions).
  - reflexivity.
  - simpl. in_list.
Defined.

(** X3. Order of a merged collection. In a collection merged by timestamp
    other than the categories, when both sides hold arrays and no id occurs
    twice locally, the merged array is the local array with every entry
    replaced in place by the last remote entry that overrides it (same id,
    strictly larger timestamp), followed by the remote entries whose id is
    unknown locally, in remote order. *)
Theorem merged_collection_order (L R : snapshot) (res : merge_result)
    (c : collection) (l r : list Item.t) :
  mergeWalletData L R = Some res →
  timestamped c → c ≠ Categories →
  field c L = Items l → field c R = Items r →
  NoDup (ids l) →
  field c (merged res)
  = Items ((resolve r <$> l) ++ filter (λ y, Item.id y ∉ ids l) r).
Proof.
  intros Hres Hts Hcat HL HR Hnd.
  apply mergeWalletData_inv in Hres as [Hf _].
  destruct (Hf c) as [lg Hc]. rewrite HL, HR, mergeCollection_Items in Hc.
  injection Hc as <- _. f_equal.
  destruct c; unfold mergeOf; try done; try (by destruct Hts);
    by apply mergeById_closed_form.
Qed.

Lemma merged_collection_order_witness :
  mergeWalletData localA remoteA = Some resultA ∧
  NoDup (ids [txn "1" 10 5]) ∧
  field Transactions (merged resultA)
  = Items ((resolve [txn "1" 12 9; txn "2" 3 1] <$> [txn "1" 10 5]) ++
           filter (λ y, Item.id y ∉ ids [txn "1" 10 5])
                  [txn "1" 12 9; txn "2" 3 1]).
Proof.
  assert (NoDup (ids [txn "1" 10 5])) as Hnd.
  { simpl. repeat constructor. rewrite list_elem_of_In. simpl. tauto. }
  split; [reflexivity|]. split; [exact Hnd|].
  apply (merged_collection_order localA remoteA resultA Transactions).
  - reflexivity.
  - intros Hc. discriminate Hc.
  - intros Hc. discriminate Hc.
  - reflexivity.
  - reflexivity.
  - exact Hnd.
Defined.

(** X4. The lines a merge loop logs, whatever the ids: one line per remote
    entry, in remote order, "added" when its id is unknown locally, "updated"
    when it is newer than the entry the local map holds under its id (the
    last local entry with that id), and none otherwise. The guard
    [index !== -1] of the loops never fails. *)
Theorem mergeById_log_lines added updated (l r : list Item.t) :
  (mergeById added updated l r).2 = omap (logLine (idMap l) added updated) r.
Proof.
  induction r as [|y r IH] using rev_ind; [done|].
  rewrite mergeById_snoc, omap_app. simpl.
  pose proof (mergeById_ids added updated l r) as Hids.
  destruct (mergeById added updated l r) as [m lg]; simpl in *. subst lg.
  unfold mergeStep, logLine.
  destruct (idMap l !! Item.id y) as [x0|] eqn:Hx0; [|done].
  destruct (decide (getTimestamp x0 < getTimestamp y)); simpl;
    [|by rewrite app_nil_r].
  destruct (findIndex (Item.id y) m) as [i|] eqn:Hi; [done|].
  exfalso. apply findIndex_None in Hi. apply Hi. rewrite Hids.
  apply elem_of_app; left.
  apply idMap_lookup_Some in Hx0 as [Hin <-]. by apply elem_of_ids.
Qed.

(** X6. With no local emergency fund, a remote fund is taken over when it is
    positive; a remote fund of zero or less is dropped and the merged fund
    stays undefined. *)
Theorem emergencyFund_local_undefined (L R : snapshot) (res : merge_result)
    (b : Z) :
  mergeWalletData L R = Some res →
  emergencyFund L = None →
  emergencyFund R = Some b →
  emergencyFund (merged res) = if decide (0 < b) then Some b else None.
Proof.
  intros Hres HL HR.
  apply mergeWalletData_inv in Hres as (_ & Hef & _).
  rewrite Hef, HL, HR. unfold mergeEmergencyFund, num_or. simpl.
  destruct (decide (0 < b)); [done|]. by destruct (decide (b < 0)).
Qed.

Lemma emergencyFund_local_undefined_witness :
  mergeWalletData localA (withFund 0)
    = Some (MergeResult localA [] []) ∧
  emergencyFund (merged (MergeResult localA [] []))
    = if decide (0 < 0) then Some 0 else None.
Proof.
  split; [reflexivity|].
  apply (emergencyFund_local_undefined localA (withFund 0)); reflexivity.
Defined.

(** X7. The merged profile, when the remote snapshot has one: every property
    is the remote one when the remote profile has it and the local one
    otherwise; [lastModified] is always set, to the larger of the two sides'
    values, a missing one counting as zero; one line is logged. *)
Theorem userProfile_overlay (L R : snapshot) (res : merge_result)
    (rp : Profile.t) :
  mergeWalletData L R = Some res →
  userProfile R = Some rp →
  ∃ mp, userProfile (merged res) = Some mp ∧
        (∀ k, Profile.fields mp !! k
              = match Profile.fields rp !! k with
                | Some v => Some v
                | None => userProfile L ≫= λ lp, Profile.fields lp !! k
                end) ∧
        Profile.lastModified mp
        = Some (Z.max (default 0 (userProfile L ≫= Profile.lastModified))
                      (default 0 (Profile.lastModified rp))) ∧
        MergedUserProfile ∈ mergeLog res.
Proof.
  intros Hres HR.
  apply mergeWalletData_inv in Hres as (_ & _ & Hup & _ & _ & lines & _ & Hlog).
  rewrite HR in Hup, Hlog. simpl in *. eexists. split; [exact Hup|].
  simpl. split; [|split].
  - intros k. rewrite lookup_union.
    destruct (Profile.fields rp !! k) as [v|]; simpl.
    + by destruct (from_option Profile.fields ∅ (userProfile L) !! k).
    + destruct (userProfile L) as [lp|]; simpl.
      * by destruct (Profile.fields lp !! k).
      * by rewrite lookup_empty.
  - by rewrite !num_or_zero.
  - rewrite Hlog. rewrite !elem_of_app. right. right. constructor.
Qed.

Lemma userProfile_overlay_witness :
  ∃ res, mergeWalletData S_prof S_prof = Some res ∧
  ∃ mp, userProfile (merged res) = Some mp ∧
        Profile.fields mp !! "name" = Some "Ann" ∧
        Profile.lastModified mp = Some 0.
Proof.
  assert (is_Some (mergeWalletData S_prof S_prof)) as [res Hres]
    by (vm_compute; eexists; reflexivity).
  exists res. split; [exact Hres|].
  destruct (userProfile_overlay S_prof S_prof res
              (Profile.mk {["name" := "Ann"]} None) Hres eq_refl)
    as (mp & Hmp & Hfields & Hlm & _).
  exists mp. split; [exact Hmp|]. split; [|exact Hlm].
  rewrite (Hfields "name"). reflexivity.
Defined.

(** ** Merging the same remote snapshot again *)

Lemma mergeById_NoDup added updated (l r : list Item.t) :
  NoDup (ids l) → NoDup (ids r) → NoDup (ids (mergeById added updated l r).1).
Proof.
  intros Hl Hr. rewrite mergeById_ids. apply NoDup_app. split; [done|]. split.
  - intros k Hk Hk'. unfold ids in Hk'.
    apply list_elem_of_fmap in Hk' as (y & -> & Hy).
    by apply list_elem_of_filter in Hy as [Hout _].
  - by apply NoDup_ids_filter.
Qed.

Lemma winner_not_older (x y : Item.t) :
  ¬ getTimestamp (winner x y) < getTimestamp y.
Proof. unfold winner. destruct (decide _); lia. Qed.

Lemma mergeById_stable added updated (l r : list Item.t) :
  NoDup (ids l) → NoDup (ids r) →
  (mergeById added updated (mergeById added updated l r).1 r).1
  = (mergeById added updated l r).1.
Proof.
  intros Hl Hr.
  rewrite (mergeById_closed_form added updated (mergeById added updated l r).1)
    by by apply mergeById_NoDup.
  rewrite filter_none, app_nil_r.
  - rewrite <- (list_fmap_id (mergeById added updated l r).1) at 2.
    apply list_fmap_ext. intros i z Hz. simpl.
    apply list_elem_of_lookup_2 in Hz.
    apply resolve_no_override. intros y Hy Hid.
    rewrite mergeById_closed_form in Hz by done.
    apply elem_of_app in Hz as [Hz|Hz].
    + apply list_elem_of_fmap in Hz as (x & -> & Hx).
      rewrite resolve_id in Hid.
      rewrite (resolve_unique r x y) by done. apply winner_not_older.
    + apply list_elem_of_filter in Hz as [_ Hz].
      rewrite (ids_inj r y z) by done. lia.
  - intros y Hy Hout. apply Hout. by apply mergeById_keeps_ids; right.
Qed.

Lemma mergeAppendOnly_stable (l r : list Item.t) :
  (mergeAppendOnly (mergeAppendOnly l r).1 r).1 = (mergeAppendOnly l r).1.
Proof.
  rewrite (mergeAppendOnly_closed_form (mergeAppendOnly l r).1).
  rewrite filter_none; [by rewrite app_nil_r|].
  intros y Hy Hout. apply Hout. rewrite mergeAppendOnly_closed_form.
  unfold ids. rewrite fmap_app. apply elem_of_app.
  destruct (decide (Item.id y ∈ ids l)) as [Hin|Hnew]; [by left|right].
  apply elem_of_ids. by apply list_elem_of_filter.
Qed.

Lemma filter_all {A} (P : A → Prop) `{∀ x, Decision (P x)} (l : list A) :
  (∀ x, x ∈ l → P x) → filter P l = l.
Proof.
  induction l as [|x l IH]; [done|]. intros Hl. rewrite filter_cons.
  rewrite decide_True by (apply Hl; constructor). f_equal.
  apply IH. intros y Hy. apply Hl. by constructor.
Qed.

Lemma mergeCategories_stable (l r : list Item.t) :
  NoDup (ids l) → NoDup (ids r) →
  (mergeCategories (mergeCategories l r).1 r).1 = (mergeCategories l r).1.
Proof.
  intros Hl Hr.
  rewrite (mergeCategories_fst (mergeCategories l r).1), !(mergeCategories_fst l r).
  set (U := (mergeById _ _ (filter _ l) (filter _ r)).1).
  assert (∀ z, z ∈ U → Item.isDefault z = false) as HU.
  { intros z Hz. apply mergeById_from_inputs in Hz as [Hz|Hz];
      by apply list_elem_of_filter in Hz as [? _]. }
  rewrite !filter_app, list_filter_filter.
  rewrite (filter_none _ U) by (intros z Hz; rewrite (HU z Hz); done).
  rewrite (filter_all _ U) by done.
  rewrite (filter_none _ (filter _ l)).
  2:{ intros z Hz Hd. apply list_elem_of_filter in Hz as [Hd' _]. congruence. }
  rewrite app_nil_r. simpl. f_equal.
  - apply list_filter_iff. tauto.
  - subst U. apply mergeById_stable; by apply NoDup_ids_filter.
Qed.

Lemma mergeOf_stable (c : collection) (l r : list Item.t) :
  (timestamped c → NoDup (ids l) ∧ NoDup (ids r)) →
  (mergeOf c (mergeOf c l r).1 r).1 = (mergeOf c l r).1.
Proof.
  intros Hnd.
  destruct c; simpl;
    try (destruct Hnd as [Hl Hr]; [done|]; by apply mergeById_stable).
  - destruct Hnd as [Hl Hr]; [done|]. by apply mergeCategories_stable.
  - apply mergeAppendOnly_stable.
Qed.

Lemma snapshot_ext (s t : snapshot) :
  (∀ c, field c s = field c t) →
  userProfile s = userProfile t →
  emergencyFund s = emergencyFund t →
  exportedAt s = exportedAt t →
  s = t.
Proof.
  destruct s, t. simpl. intros Hf -> -> ->.
  pose proof (Hf Transactions) as H1. pose proof (Hf Budgets) as H2.
  pose proof (Hf Goals) as H3. pose proof (Hf Categories) as H4.
  pose proof (Hf DebtAccounts) as H5. pose proof (Hf CreditAccounts) as H6.
  pose proof (Hf DebtCreditTransactions) as H7. simpl in *. by subst.
Qed.

(** X5. Downloading the same remote snapshot twice changes nothing the
    second time: when no id occurs twice within a collection merged by
    timestamp, on either side, merging the result of [mergeWalletData L R]
    with [R] again returns, and returns that same snapshot. *)
Theorem merge_again_is_stable (L R : snapshot) (res : merge_result) :
  mergeWalletData L R = Some res →
  (∀ c, timestamped c → NoDup (ids (entries (field c L)))) →
  (∀ c, timestamped c → NoDup (ids (entries (field c R)))) →
  ∃ res', mergeWalletData (merged res) R = Some res' ∧
          merged res' = merged res.
Proof.
  intros Hres HL HR.
  apply mergeWalletData_inv in Hres as (Hf & Hef & Hup & Hex & _).
  destruct (mergeWalletData (merged res) R) as [res'|] eqn:Hres'.
  2:{ apply mergeWalletData_throws_iff in Hres' as (c & Hc & r & Hr).
      destruct (Hf c) as [lg Hm]. rewrite Hr in Hm.
      unfold mergeCollection in Hm.
      destruct (localArray (field c L)); simpl in Hm; [|done].
      destruct (mergeOf c l r). injection Hm as Hm _. congruence. }
  exists res'. split; [done|].
  apply mergeWalletData_inv in Hres' as (Hf' & Hef' & Hup' & Hex' & _).
  apply snapshot_ext.
  - intros c. destruct (Hf c) as [lg Hm]. destruct (Hf' c) as [lg' Hm'].
    destruct (field c R) as [|b|r] eqn:HRc; [by injection Hm'|by injection Hm'|].
    unfold mergeCollection in Hm.
    destruct (localArray (field c L)) as [l|] eqn:Hl; simpl in Hm; [|done].
    apply localArray_entries in Hl.
    assert ((mergeOf c l r).1 = entries (field c (merged res))) as Hfst.
    { destruct (mergeOf c l r). injection Hm as <- _. done. }
    assert (field c (merged res) = Items (mergeOf c l r).1) as Hitems.
    { destruct (mergeOf c l r). injection Hm as <- _. done. }
    rewrite Hitems, mergeCollection_Items in Hm'. injection Hm' as <- _.
    rewrite Hitems. f_equal. apply mergeOf_stable. intros Hts. split.
    + rewrite <- Hl. by apply HL.
    + specialize (HR c Hts). by rewrite HRc in HR.
  - rewrite Hup', Hup. unfold mergeUserProfile.
    destruct (userProfile R) as [rp|]; [|done]. simpl. do 2 f_equal.
    + by rewrite (assoc_L (∪)), (idemp_L (∪)).
    + rewrite (num_or_zero (Some _)). simpl. f_equal. lia.
  - rewrite Hef', Hef. unfold mergeEmergencyFund.
    destruct (emergencyFund R) as [b|]; [|done].
    destruct (decide (num_or (emergencyFund L) 0 < b)) as [Hlt|Hge]; simpl.
    + rewrite num_or_zero. simpl. rewrite decide_False by lia.
      by destruct (decide (b < b)).
    + destruct (decide (b < num_or (emergencyFund L) 0)); simpl;
        rewrite decide_False by done; by destruct (decide _).
  - by rewrite Hex'.
Qed.

Lemma merge_again_is_stable_witness :
  mergeWalletData localA remoteA = Some resultA ∧
  ∃ res', mergeWalletData (merged resultA) remoteA = Some res' ∧
          merged res' = merged resultA.
Proof.
  split; [reflexivity|].
  apply (merge_again_is_stable localA remoteA resultA).
  - reflexivity.
  - intros c _. destruct c; simpl; repeat constructor.
    rewrite list_elem_of_In. simpl. tauto.
  - intros c _. destruct c; simpl; repeat constructor;
      rewrite ?list_elem_of_In; simpl; intros Hin;
      repeat (destruct Hin as [Hin|Hin]; [discriminate Hin|]); exact Hin.
Defined.

(** ** Downloading one's own upload *)

(** X22. A device that merges its wallet with the snapshot it uploaded
    itself (the wallet without default categories and without debt/credit
    transactions) gets its own wallet back, when no id occurs twice within a
    collection: every collection other than the categories and the emergency
    fund are unchanged, the categories are the wallet's with the default ones
    moved to the front, and the profile is the wallet's with [lastModified]
    set. *)
Theorem merge_with_own_upload (S : snapshot) (l : list Item.t) (t now : Z) :
  categories S = Items l →
  (∀ c, timestamped c → NoDup (ids (entries (field c S)))) →
  ∃ res,
    mergeWalletData (localDataOf S t)
      (uploadedData S (filter (λ cat, Item.isDefault cat = false) l) now)
      = Some res ∧
    (∀ c, c ≠ Categories → field c (merged res) = field c S) ∧
    categories (merged res) = defaultsFirst (categories S) ∧
    emergencyFund (merged res) = emergencyFund S ∧
    userProfile (merged res) = stamped <$> userProfile S ∧
    exportedAt (merged res) = t.
Proof.
  intros Hcat Hnd.
  set (U := uploadedData S (filter (λ cat, Item.isDefault cat = false) l) now).
  assert (∀ c, timestamped c → ∀ l', field c S = Items l' → NoDup (ids l'))
    as Hnd'.
  { intros c Hc l' Hl'. specialize (Hnd c Hc). by rewrite Hl' in Hnd. }
  destruct (mergeWalletData (localDataOf S t) U) as [res|] eqn:Hres.
  2:{ apply mergeWalletData_throws_iff in Hres as (c & Hc & r & Hr).
      rewrite field_localDataOf in Hc.
      destruct c; simpl in Hr, Hc; congruence. }
  exists res. split; [done|].
  apply mergeWalletData_inv in Hres as (Hf & Hef & Hup & Hex & _).
  repeat split.
  - intros c Hc. destruct (Hf c) as [lg Hm].
    rewrite field_localDataOf in Hm.
    assert (c = DebtCreditTransactions ∨ field c U = field c S) as [->|HU]
      by (destruct c; first [by destruct Hc | by left | by right]).
    { simpl in Hm. unfold mergeCollection in Hm. by injection Hm. }
    rewrite HU in Hm.
    destruct (field c S) as [|b|l'] eqn:HS;
      [by injection Hm|by injection Hm|].
    rewrite mergeCollection_Items in Hm. injection Hm as <- _. f_equal.
    destruct c; unfold mergeOf; try done;
      try (apply mergeById_self; eapply Hnd'; [|exact HS]; done).
  - destruct (Hf Categories) as [lg Hm]. rewrite field_localDataOf in Hm.
    unfold U in Hm. cbn [field uploadedData categories] in Hm.
    rewrite Hcat in Hm |- *.
    rewrite mergeCollection_Items in Hm. injection Hm as <- _.
    cbn [mergeOf defaultsFirst]. f_equal. rewrite mergeCategories_fst. f_equal.
    assert (filter (λ c, Item.isDefault c = false)
              (filter (λ cat, Item.isDefault cat = false) l)
            = filter (λ cat, Item.isDefault cat = false) l) as ->
      by (rewrite list_filter_filter; apply list_filter_iff; tauto).
    apply mergeById_self, NoDup_ids_filter. by apply (Hnd' Categories).
  - rewrite Hef. simpl. unfold mergeEmergencyFund.
    destruct (emergencyFund S) as [f|]; [|done].
    destruct (decide (num_or (Some f) 0 < f)) as [Hlt|_];
      [|by destruct (decide _)].
    rewrite num_or_zero in Hlt. simpl in Hlt. lia.
  - rewrite Hup. simpl. unfold mergeUserProfile.
    destruct (userProfile S) as [p|]; [|done]. simpl. unfold stamped.
    do 2 f_equal.
    + apply (idemp_L (∪)).
    + by rewrite Z.max_id, num_or_zero.
  - done.
Qed.

Lemma merge_with_own_upload_witness :
  ∃ res,
    mergeWalletData (localDataOf S_cat 7)
      (uploadedData S_cat
         (filter (λ cat, Item.isDefault cat = false) [catUser; catDefault]) 9)
      = Some res ∧
    categories (merged res) = Items [catDefault; catUser] ∧
    exportedAt (merged res) = 7.
Proof.
  destruct (merge_with_own_upload S_cat [catUser; catDefault] 7 9 eq_refl)
    as (res & Hres & _ & Hcat & _ & _ & Hex).
  { intros c _. destruct c; simpl; repeat constructor;
      rewrite ?list_elem_of_In; simpl; intros Hin;
      repeat (destruct Hin as [Hin|Hin]; [discriminate Hin|]); exact Hin. }
  exists res. split; [exact Hres|]. split; [exact Hcat|exact Hex].
Defined.

(** * Further properties of the orchestrator *)

Section OrchestratorFurther.
Context {platform : Platform}.

Ltac run :=
  unfold tryCatch, await, mutation, perform, toast, setSyncState, getItem,
    setItem, removeItem, throw, mbind, action_bind, mret, action_ret in *;
  simpl in *.

Ltac failed := simpl; intros [= <- <-] Hs; discriminate Hs.

(** X8. What a successful upload did. The render had a user and sync
    enabled and the wallet's categories were an array; the remote store
    received the ciphertext and digest of the wallet without its default
    categories and without the debt/credit transactions, then the device
    metadata, and nothing else was called; the upload time is stored under
    [convex_last_sync_time] and is the state's [lastSyncTime]; [isSyncing]
    is false and the error is cleared. *)
Theorem syncToConvex_success (r : render) (password : option string)
    (env : uploadEnv) (w : world) (res : Result.t) (w' : world) :
  syncToConvex r password env w = (Returned res, w') →
  Result.success res = true →
  ∃ u l key encrypted hash deviceId deviceName,
    user r = Some u ∧ isAuthenticated r = true ∧
    SyncState.isEnabled (syncState r) = true ∧
    categories (wallet r) = Items l ∧
    let data := uploadedData (wallet r)
                  (filter (λ cat, Item.isDefault cat = false) l)
                  (exportTime env) in
    deriveKeyFromPin (syncPasswordOf u password)
      (generateConsistentSalt (User.id u) (User.email u)) = Some key ∧
    encryptData (JSON_stringify data) key = Some encrypted ∧
    generateIntegrityHash (JSON_stringify data) = Some hash ∧
    calls w' = calls w ++
               [StoreWalletData (User.id u) deviceId encrypted hash;
                UpdateSyncMetadata (User.id u) deviceId deviceName] ∧
    localStorage w' !! "convex_last_sync_time"
      = Some (toString (uploadTime env)) ∧
    state w' = SyncState.mk (SyncState.isEnabled (state w))
                            (SyncState.isPaused (state w)) false
                            (Some (uploadTime env)) None.
Proof.
  unfold syncToConvex.
  destruct (user r) as [u|] eqn:Hu; [|failed].
  destruct (isAuthenticated r) eqn:Ha; simpl; [|failed].
  destruct (SyncState.isEnabled (syncState r)) eqn:He; simpl; [|failed].
  unfold encryptWalletData. run.
  destruct (categories (wallet r)) as [|b|l] eqn:Hcat; simpl; [failed|failed|].
  destruct (deriveKeyFromPin _ _) as [k|] eqn:Hk; simpl; [|failed].
  destruct (encryptData _ _) as [enc|] eqn:Henc; simpl; [|failed].
  destruct (generateIntegrityHash _) as [h|] eqn:Hh; simpl; [|failed].
  match goal with
  | |- context [getDeviceInfo env ?w0] =>
      destruct (getDeviceInfo_frame env w0)
        as ([deviceId deviceName] & w3 & -> & Hst & Hcalls & Hls)
  end; simpl in *.
  destruct (storeOutcome env) as [m1|]; simpl; [failed|].
  destruct (metadataOutcome env) as [m2|]; simpl; [failed|].
  intros [= <- <-] _. simpl.
  exists u, l, k, enc, h, deviceId, deviceName.
  repeat split; try done.
  - by rewrite Hcalls, <- app_assoc.
  - by rewrite lookup_insert_eq.
  - by rewrite Hst.
Qed.

(** X9. [enableSync] for a signed-in user cannot fail: it resolves to a
    success whatever happens to its initial upload, stores the enabled flag
    and leaves [isEnabled] true and [isSyncing] false. Called from a render
    that has sync disabled, its initial upload is stopped by the guard of
    [syncToConvex]: nothing is sent and only the enabled flag is written.
    Without a signed-in user it fails and changes nothing. *)
Theorem enableSync_enables (r : render) (env : uploadEnv) (w : world) :
  ∃ res w', enableSync r env w = (Returned res, w') ∧
    ((isAuthenticated r = false ∨ user r = None) →
     res = Result.fail "User not authenticated" ∧ w' = w) ∧
    (isAuthenticated r = true → is_Some (user r) →
     res = Result.ok ∧
     SyncState.isEnabled (state w') = true ∧
     SyncState.isSyncing (state w') = false ∧
     localStorage w' !! "convex_sync_enabled" = Some "true" ∧
     (SyncState.isEnabled (syncState r) = false →
      calls w' = calls w ∧
      localStorage w' = <["convex_sync_enabled" := "true"]> (localStorage w) ∧
      state w' = SyncState.mk true (SyncState.isPaused (state w)) false
                              (SyncState.lastSyncTime (state w)) None)).
Proof.
  unfold enableSync.
  destruct (user r) as [u|] eqn:Hu.
  2:{ do 2 eexists. split; [reflexivity|]. split; [done|]. by intros _ [? ?]. }
  destruct (isAuthenticated r) eqn:Ha.
  2:{ do 2 eexists. split; [reflexivity|]. split; [done|]. done. }
  unfold mbind at 1, action_bind at 1. unfold setSyncState at 1.
  unfold mbind at 1, action_bind at 1.
  match goal with
  | |- context [syncToConvex r ?p env ?w0] =>
      destruct (syncToConvex_calls r p env w0)
        as (up & wu & new & Hup & Hcalls & _ & _);
      pose proof (eq_refl (syncToConvex r p env w0)) as Hguard;
      rewrite Hup in Hguard at 1; rewrite Hup
  end.
  run. do 2 eexists. split; [reflexivity|]. simpl.
  split; [intros [?|?]; congruence|]. intros _ _.
  split; [done|]. split; [done|]. split; [done|].
  split; [by rewrite lookup_insert_eq|].
  intros He. unfold syncToConvex in Hguard. rewrite Hu, Ha, He in Hguard.
  simpl in Hguard. injection Hguard as Hres Hw. subst up wu. done.
Qed.

Lemma enableSync_returns (r : render) (env : uploadEnv) (w : world)
    (u : User.t) :
  user r = Some u → isAuthenticated r = true →
  ∃ w', enableSync r env w = (Returned Result.ok, w').
Proof.
  intros Hu Ha. unfold enableSync. rewrite Hu, Ha.
  unfold mbind at 1, action_bind at 1. unfold setSyncState at 1.
  unfold mbind at 1, action_bind at 1.
  match goal with
  | |- context [syncToConvex r ?p env ?w0] =>
      destruct (syncToConvex_calls r p env w0) as (up & wu & new & -> & _)
  end.
  run. by eexists.
Qed.

(** From a render that has sync disabled the initial upload of [enableSync]
    is stopped by the guard of [syncToConvex]: only the enabled flag is
    written and the state is set, nothing is called. *)
Lemma enableSync_disabled (r : render) (env : uploadEnv) (w : world)
    (u : User.t) :
  user r = Some u → isAuthenticated r = true →
  SyncState.isEnabled (syncState r) = false →
  enableSync r env w
  = (Returned Result.ok,
     World (SyncState.mk true (SyncState.isPaused (state w)) false
                         (SyncState.lastSyncTime (state w)) None)
           (<["convex_sync_enabled" := "true"]> (localStorage w))
           (calls w)).
Proof.
  intros Hu Ha He. unfold enableSync, syncToConvex. rewrite Hu, Ha, He.
  reflexivity.
Qed.

(** X10. How [syncFromConvex] can end. It always resolves, and to one of six
    results: the failure ["User not authenticated"], with nothing changed,
    exactly when the render has no signed-in user; the success carrying the
    message of the missing remote record; the failures ["Decryption failed"],
    [typeError] (thrown by the merge) and ["Import failed"]; or a success
    carrying the merged data. The failures ["Failed to enable sync"] and
    ["Merge failed"] of lines 565 and 657 are never returned. *)
Theorem syncFromConvex_results (r : render) (password : option string)
    (envE : uploadEnv) (envD : downloadEnv) (w : world) :
  ∃ res w', syncFromConvex r password envE envD w = (Returned res, w') ∧
    ((isAuthenticated r = false ∨ user r = None) ↔
     res = Result.fail "User not authenticated") ∧
    (res = Result.fail "User not authenticated" → w' = w) ∧
    (res = Result.fail "User not authenticated" ∨
     res = Result.mk true None (Some "No remote data to sync") None ∨
     res = Result.fail "Decryption failed" ∨
     res = Result.fail typeError ∨
     res = Result.fail "Import failed" ∨
     ∃ mres, res = Result.mk true None None (Some mres)).
Proof.
  unfold syncFromConvex.
  destruct (user r) as [u|] eqn:Hu.
  2:{ do 2 eexists. split; [reflexivity|].
      split; [split; [done|intros _; by right]|]. split; [done|]. by left. }
  destruct (isAuthenticated r) eqn:Ha.
  2:{ do 2 eexists. split; [reflexivity|].
      split; [split; [done|intros _; by left]|]. split; [done|]. by left. }
  assert (∀ res : Result.t,
            Result.success res = true ∨ Result.error res ≠ Some "User not authenticated" →
            (true = false ∨ Some u = None) ↔ res = Result.fail "User not authenticated")
    as Hauth.
  { intros res Hres. split; [intros [?|?]; done|]. intros ->.
    destruct Hres as [?|?]; done. }
  destruct (SyncState.isEnabled (syncState r)) eqn:He.
  - simpl. unfold importData. run.
    destruct (getLatestWalletData r) as [latest|]; simpl.
    2:{ do 2 eexists. split; [reflexivity|]. split; [apply Hauth; by left|].
        split; [done|]. by auto. }
    rewrite decryptWalletData_decrypted.
    destruct (decrypted u _ _) as [remoteData|]; simpl.
    2:{ do 2 eexists. split; [reflexivity|]. split; [apply Hauth; by right|].
        split; [done|]. by auto. }
    destruct (mergeWalletData _ remoteData) as [mres|]; simpl.
    2:{ do 2 eexists. split; [reflexivity|]. split; [apply Hauth; by right|].
        split; [done|]. by auto. }
    destruct (importAnswer envD) as [[]|msg]; simpl;
      [destruct (decide (mergeLog mres = [])); simpl|..];
      do 2 eexists; (split; [reflexivity|]);
      (split; [apply Hauth; first [by left | by right]|]);
      (split; [done|]); by eauto 10.
  - unfold mbind at 1, action_bind at 1.
    destruct (enableSync_returns r envE w u Hu Ha) as (w1 & ->).
    simpl. unfold importData. run.
    destruct (getLatestWalletData r) as [latest|]; simpl.
    2:{ do 2 eexists. split; [reflexivity|]. split; [apply Hauth; by left|].
        split; [done|]. by auto. }
    rewrite decryptWalletData_decrypted.
    destruct (decrypted u _ _) as [remoteData|]; simpl.
    2:{ do 2 eexists. split; [reflexivity|]. split; [apply Hauth; by right|].
        split; [done|]. by auto. }
    destruct (mergeWalletData _ remoteData) as [mres|]; simpl.
    2:{ do 2 eexists. split; [reflexivity|]. split; [apply Hauth; by right|].
        split; [done|]. by auto. }
    destruct (importAnswer envD) as [[]|msg]; simpl;
      [destruct (decide (mergeLog mres = [])); simpl|..];
      do 2 eexists; (split; [reflexivity|]);
      (split; [apply Hauth; first [by left | by right]|]);
      (split; [done|]); by eauto 10.
Qed.

Ltac download r u :=
  unfold syncFromConvex;
  repeat match goal with
         | H : user r = _ |- _ => rewrite H
         | H : isAuthenticated r = _ |- _ => rewrite H
         | H : SyncState.isEnabled (syncState r) = _ |- _ => rewrite H
         | H : getLatestWalletData r = _ |- _ => rewrite H
         end;
  simpl; unfold importData; run;
  rewrite ?decryptWalletData_decrypted.

Ltac download_disabled r u :=
  unfold syncFromConvex;
  repeat match goal with
         | H : user r = _ |- _ => rewrite H
         | H : isAuthenticated r = _ |- _ => rewrite H
         | H : SyncState.isEnabled (syncState r) = _ |- _ => rewrite H
         | H : getLatestWalletData r = _ |- _ => rewrite H
         end;
  unfold mbind at 1, action_bind at 1;
  match goal with
  | |- context [enableSync r ?env ?w0] =>
      rewrite (enableSync_disabled r env w0 u) by assumption
  end;
  simpl; unfold importData; run;
  rewrite ?decryptWalletData_decrypted.

(** X11. With no remote record yet, a download from a render that has sync
    enabled is a successful no-op: it resolves to a success with the message
    ["No remote data to sync"], calls nothing, writes nothing to the storage,
    and leaves the state with [isSyncing] false and the error cleared. *)
Theorem syncFromConvex_no_remote_data (r : render) (password : option string)
    (envE : uploadEnv) (envD : downloadEnv) (w : world) (u : User.t) :
  user r = Some u → isAuthenticated r = true →
  SyncState.isEnabled (syncState r) = true →
  getLatestWalletData r = None →
  ∃ w', syncFromConvex r password envE envD w
        = (Returned (Result.mk true None (Some "No remote data to sync") None),
           w') ∧
        calls w' = calls w ∧ localStorage w' = localStorage w ∧
        state w' = SyncState.mk (SyncState.isEnabled (state w))
                                (SyncState.isPaused (state w)) false
                                (SyncState.lastSyncTime (state w)) None.
Proof.
  intros Hu Ha He Hl. download r u. eexists. split; [reflexivity|]. done.
Qed.

(** X12. A download that fails before the import, because the remote record
    does not decrypt or because the merge throws, calls nothing; it resolves
    to a failure with the error's message, which is also the state's error,
    and leaves [isSyncing] false and [lastSyncTime] as it was. From a render
    that has sync enabled the storage is untouched; from a render that has
    it disabled, [enableSync] has run first: the enabled flag is stored and
    [isEnabled] is true, and nothing else is written. *)
Theorem syncFromConvex_fails_before_import (r : render)
    (password : option string) (envE : uploadEnv) (envD : downloadEnv)
    (w : world) (u : User.t) (latest : Remote.t) :
  user r = Some u → isAuthenticated r = true →
  getLatestWalletData r = Some latest →
  (decrypted u (Remote.encryptedData latest) (syncPasswordOf u password)
     ≫= mergeWalletData (localDataOf (wallet r) (localExportTime envD)))
    = None →
  ∃ message w',
    syncFromConvex r password envE envD w
      = (Returned (Result.fail message), w') ∧
    (message = "Decryption failed" ∨ message = typeError) ∧
    calls w' = calls w ∧
    localStorage w'
      = (if SyncState.isEnabled (syncState r) then localStorage w
         else <["convex_sync_enabled" := "true"]> (localStorage w)) ∧
    state w' = SyncState.mk
                 (if SyncState.isEnabled (syncState r)
                  then SyncState.isEnabled (state w) else true)
                 (SyncState.isPaused (state w)) false
                 (SyncState.lastSyncTime (state w))
                 (Some message).
Proof.
  intros Hu Ha Hl Hfail.
  destruct (SyncState.isEnabled (syncState r)) eqn:He.
  - download r u.
    destruct (decrypted u _ _) as [remoteData|]; simpl in *.
    + rewrite Hfail. simpl. do 2 eexists. split; [reflexivity|]. by auto.
    + do 2 eexists. split; [reflexivity|]. by auto.
  - download_disabled r u.
    destruct (decrypted u _ _) as [remoteData|]; simpl in *.
    + rewrite Hfail. simpl. do 2 eexists. split; [reflexivity|]. by auto.
    + do 2 eexists. split; [reflexivity|]. by auto.
Qed.

(** X13. A download whose import does not succeed (the wallet's [importData]
    resolves to false or throws) resolves to the failure ["Import failed"]
    and leaves [isSyncing] true: no error is recorded, [lastSyncTime] is as
    before, and the only calls are the import and one toast. The storage is
    as before, except for the enabled flag that [enableSync] stores first
    when the render has sync disabled. *)
Theorem syncFromConvex_import_failure (r : render) (password : option string)
    (envE : uploadEnv) (envD : downloadEnv) (w : world) (u : User.t)
    (latest : Remote.t) (remoteData : snapshot) (mres : merge_result) :
  user r = Some u → isAuthenticated r = true →
  getLatestWalletData r = Some latest →
  decrypted u (Remote.encryptedData latest) (syncPasswordOf u password)
    = Some remoteData →
  mergeWalletData (localDataOf (wallet r) (localExportTime envD)) remoteData
    = Some mres →
  importAnswer envD ≠ ImportResolves true →
  ∃ w' title,
    syncFromConvex r password envE envD w
      = (Returned (Result.fail "Import failed"), w') ∧
    calls w' = calls w ++ [ImportData (merged mres); Toast title] ∧
    localStorage w'
      = (if SyncState.isEnabled (syncState r) then localStorage w
         else <["convex_sync_enabled" := "true"]> (localStorage w)) ∧
    state w' = SyncState.mk
                 (if SyncState.isEnabled (syncState r)
                  then SyncState.isEnabled (state w) else true)
                 (SyncState.isPaused (state w)) true
                 (SyncState.lastSyncTime (state w)) None.
Proof.
  intros Hu Ha Hl Hdec Hmerge Himport.
  destruct (SyncState.isEnabled (syncState r)) eqn:He;
    [download r u|download_disabled r u];
    rewrite Hdec; simpl; rewrite Hmerge; simpl;
    (destruct (importAnswer envD) as [[]|msg]; [done|..]; simpl;
     do 2 eexists; (split; [reflexivity|]); simpl;
     by rewrite <- app_assoc).
Qed.

(** X14. A download whose import succeeds hands the merge of the render's
    wallet with the decrypted remote snapshot to [importData], announces it
    with a toast when the merge logged anything, stores the download time
    under [convex_last_sync_time] and in the state, and leaves [isSyncing]
    false and the error cleared; it resolves to a success carrying the merge
    result. From a render that has sync disabled, [enableSync] has run
    first: the enabled flag is stored as well and [isEnabled] is true. *)
Theorem syncFromConvex_success (r : render) (password : option string)
    (envE : uploadEnv) (envD : downloadEnv) (w : world) (u : User.t)
    (latest : Remote.t) (remoteData : snapshot) (mres : merge_result) :
  user r = Some u → isAuthenticated r = true →
  getLatestWalletData r = Some latest →
  decrypted u (Remote.encryptedData latest) (syncPasswordOf u password)
    = Some remoteData →
  mergeWalletData (localDataOf (wallet r) (localExportTime envD)) remoteData
    = Some mres →
  importAnswer envD = ImportResolves true →
  ∃ w',
    syncFromConvex r password envE envD w
      = (Returned (Result.mk true None None (Some mres)), w') ∧
    calls w' = calls w ++ ImportData (merged mres)
                 :: (if decide (mergeLog mres = []) then []
                     else [Toast "Smart Sync Complete"]) ∧
    localStorage w'
      = <["convex_last_sync_time" := toString (downloadTime envD)]>
          (if SyncState.isEnabled (syncState r) then localStorage w
           else <["convex_sync_enabled" := "true"]> (localStorage w)) ∧
    state w' = SyncState.mk
                 (if SyncState.isEnabled (syncState r)
                  then SyncState.isEnabled (state w) else true)
                 (SyncState.isPaused (state w)) false
                 (Some (downloadTime envD)) None.
Proof.
  intros Hu Ha Hl Hdec Hmerge Himport.
  destruct (SyncState.isEnabled (syncState r)) eqn:He;
    [download r u|download_disabled r u];
    rewrite Hdec; simpl; rewrite Hmerge; simpl; rewrite Himport; simpl;
    (destruct (decide (mergeLog mres = [])); simpl;
     eexists; (split; [reflexivity|]); simpl; by rewrite <- ?app_assoc).
Qed.

Lemma append_on_nonempty (a b c : string) : a ≠ "" → a +:+ b +:+ c ≠ "".
Proof. destruct a; [done|]. intros _. simpl. discriminate. Qed.

Lemma detectBrowser_nonempty (ua : string) : detectBrowser ua ≠ "".
Proof. unfold detectBrowser. repeat case_match; discriminate. Qed.

(** The name written when none is stored is the one built from the two
    labels. *)
Lemma getDeviceInfo_generates (env : uploadEnv) (w : world) :
  str_or (localStorage w !! "convex_device_name") "" = "" →
  ∃ deviceId w',
    getDeviceInfo env w
    = (Returned (deviceId,
                 detectBrowser (userAgent env) +:+ " on "
                   +:+ detectOS (userAgent env)), w') ∧
    localStorage w' !! "convex_device_name"
    = Some (detectBrowser (userAgent env) +:+ " on "
              +:+ detectOS (userAgent env)).
Proof.
  intros Hname. unfold getDeviceInfo. run.
  destruct (decide (str_or (localStorage w !! "convex_device_id") "" = ""));
    simpl; rewrite ?lookup_insert_ne by done;
    rewrite decide_True by done; simpl;
    do 2 eexists; (split; [reflexivity|]); simpl;
    by rewrite lookup_insert_eq.
Qed.

Lemma str_or_stored (m : gmap string string) (k : string) :
  str_or (m !! k) "" ≠ "" → m !! k = Some (str_or (m !! k) "").
Proof.
  intros Hne. destruct (m !! k) as [v|] eqn:Hk; simpl in *; [|done].
  by destruct (decide (v = "")).
Qed.

(** With both keys stored and not empty, [getDeviceInfo] reads them back. *)
Lemma getDeviceInfo_stored (env : uploadEnv) (w : world) (d n : string) :
  localStorage w !! "convex_device_id" = Some d → d ≠ "" →
  localStorage w !! "convex_device_name" = Some n → n ≠ "" →
  getDeviceInfo env w = (Returned (d, n), w).
Proof.
  intros Hd Hdne Hn Hnne.
  assert (str_or (Some d) "" = d) as Hsd.
  { simpl. by rewrite decide_False. }
  assert (str_or (Some n) "" = n) as Hsn.
  { simpl. by rewrite decide_False. }
  unfold getDeviceInfo, mbind, action_bind, getItem, mret, action_ret.
  rewrite Hd, Hsd, (decide_False (P := d = "")) by done.
  rewrite Hn, Hsn, (decide_False (P := n = "")) by done. done.
Qed.

(** X15. The device identity is generated once. Whatever the storage holds,
    a first call of [getDeviceInfo] that draws a non-empty fresh id returns a
    non-empty id and name, and any later call returns that same pair and
    writes nothing, even with another fresh id at hand and from another
    user agent. *)
Theorem getDeviceInfo_persists (env env' : uploadEnv) (w : world) :
  freshDeviceId env ≠ "" →
  ∃ deviceId deviceName w1,
    getDeviceInfo env w = (Returned (deviceId, deviceName), w1) ∧
    deviceId ≠ "" ∧ deviceName ≠ "" ∧
    getDeviceInfo env' w1 = (Returned (deviceId, deviceName), w1).
Proof.
  intros Hfresh.
  pose proof (append_on_nonempty (detectBrowser (userAgent env)) " on "
                (detectOS (userAgent env))
                (detectBrowser_nonempty (userAgent env))) as Hgen.
  assert (∃ d n w1, getDeviceInfo env w = (Returned (d, n), w1) ∧
                    d ≠ "" ∧ n ≠ "" ∧
                    localStorage w1 !! "convex_device_id" = Some d ∧
                    localStorage w1 !! "convex_device_name" = Some n)
    as (d & n & w1 & Hrun & Hd & Hn & Hsd & Hsn).
  { unfold getDeviceInfo. run. fold (detectBrowser (userAgent env)).
    fold (detectOS (userAgent env)).
    destruct (decide (str_or (localStorage w !! "convex_device_id") "" = ""))
      as [Hid|Hid]; simpl.
    - rewrite lookup_insert_ne by done.
      destruct (decide (str_or (localStorage w !! "convex_device_name") "" = ""))
        as [Hname|Hname]; simpl; do 3 eexists; (split; [reflexivity|]); simpl.
      + split; [done|]. split; [done|].
        split; [by rewrite lookup_insert_ne, lookup_insert_eq|].
        by rewrite lookup_insert_eq.
      + split; [done|]. split; [done|].
        split; [by rewrite lookup_insert_eq|].
        rewrite lookup_insert_ne by done. by apply str_or_stored.
    - destruct (decide (str_or (localStorage w !! "convex_device_name") "" = ""))
        as [Hname|Hname]; simpl; do 3 eexists; (split; [reflexivity|]); simpl.
      + split; [done|]. split; [done|].
        split; [rewrite lookup_insert_ne by done; by apply str_or_stored|].
        by rewrite lookup_insert_eq.
      + split; [done|]. split; [done|].
        split; by apply str_or_stored. }
  exists d, n, w1. split; [done|]. split; [done|]. split; [done|].
  by apply getDeviceInfo_stored.
Qed.

(** X16. The label of the operating system follows the order of the checks,
    not the device: with no name stored, a user agent that contains "Linux"
    (and neither "Windows" nor "Mac") is named "... on Linux" even when it
    also contains "Android", and one that contains "Mac" (and not "Windows")
    is named "... on macOS" even when it also contains "iPhone" or "iPad".
    Likewise a user agent that contains "Chrome" is named "Chrome on ..."
    whatever else it contains. *)
Theorem getDeviceInfo_label_order (env : uploadEnv) (w : world) :
  str_or (localStorage w !! "convex_device_name") "" = "" →
  ∃ deviceId browser os w',
    getDeviceInfo env w = (Returned (deviceId, browser +:+ " on " +:+ os), w') ∧
    (includes (userAgent env) "Chrome" = true → browser = "Chrome") ∧
    (includes (userAgent env) "Windows" = false →
     includes (userAgent env) "Mac" = true → os = "macOS") ∧
    (includes (userAgent env) "Windows" = false →
     includes (userAgent env) "Mac" = false →
     includes (userAgent env) "Linux" = true → os = "Linux") ∧
    (os = "Android" ∨ os = "iOS" →
     includes (userAgent env) "Linux" = false ∧
     includes (userAgent env) "Mac" = false).
Proof.
  intros Hname.
  destruct (getDeviceInfo_generates env w Hname) as (d & w' & Hrun & _).
  exists d, (detectBrowser (userAgent env)), (detectOS (userAgent env)), w'.
  split; [exact Hrun|]. unfold detectBrowser, detectOS.
  split; [by intros ->|]. split; [by intros -> ->|].
  split; [by intros -> -> ->|].
  intros Hos. repeat case_match; destruct Hos; done.
Qed.

(** X17. Pausing is persistent and resuming undoes it. [pauseSync] sets
    [isPaused] and stores the pause flag, so that the mount effect of lines
    858-861 finds the hook paused again whatever state it starts from;
    [resumeSync] after it clears [isPaused] and removes the flag, so that the
    mount effect finds the hook not paused. Both resolve to a success and
    touch no other part of the state and no other key. *)
Theorem pauseSync_resumeSync (w : world) (st : SyncState.t) :
  ∃ w1 w2,
    pauseSync w = (Returned Result.ok, w1) ∧
    resumeSync w1 = (Returned Result.ok, w2) ∧
    state w1 = SyncState.mk (SyncState.isEnabled (state w)) true
                            (SyncState.isSyncing (state w))
                            (SyncState.lastSyncTime (state w))
                            (SyncState.error (state w)) ∧
    localStorage w1 = <["convex_sync_paused" := "true"]> (localStorage w) ∧
    state w2 = SyncState.mk (SyncState.isEnabled (state w)) false
                            (SyncState.isSyncing (state w))
                            (SyncState.lastSyncTime (state w))
                            (SyncState.error (state w)) ∧
    localStorage w2 = delete "convex_sync_paused" (localStorage w) ∧
    SyncState.isPaused
      (state (loadPauseState (World st (localStorage w1) [])).2) = true ∧
    SyncState.isPaused
      (state (loadPauseState (World st (localStorage w2) [])).2) = false.
Proof.
  do 2 eexists. split; [reflexivity|]. split; [reflexivity|]. simpl.
  split; [done|]. split; [done|]. split; [done|].
  split; [by rewrite delete_insert_eq|].
  unfold loadPauseState. run.
  split.
  - rewrite lookup_insert_eq. by rewrite bool_decide_eq_true.
  - rewrite lookup_delete_eq. by rewrite bool_decide_eq_false.
Qed.

(** X18. [disableSync] does not outlive the pause flag: after [pauseSync]
    and then [disableSync] the state says not paused, but the flag is still
    stored, and the mount effect of lines 858-861 sets [isPaused] again. *)
Theorem disableSync_then_remount_is_paused (w : world) (st : SyncState.t) :
  ∃ w1 w2,
    pauseSync w = (Returned Result.ok, w1) ∧
    disableSync w1 = (Returned Result.ok, w2) ∧
    SyncState.isPaused (state w2) = false ∧
    SyncState.isPaused
      (state (loadPauseState (World st (localStorage w2) [])).2) = true.
Proof.
  do 2 eexists. split; [reflexivity|]. split; [reflexivity|]. simpl.
  split; [done|]. unfold loadPauseState. run.
  rewrite !lookup_delete_ne by done. rewrite lookup_insert_eq.
  by rewrite bool_decide_eq_true.
Qed.

(** X19. Disabling sync does not last while the user stays signed in: in the
    render that follows [disableSync] (signed in, state reset), the effect of
    lines 53-58 calls [enableSync], after which the enabled flag is stored
    again and [isEnabled] is true; nothing is uploaded on the way. *)
Theorem disableSync_then_autoEnable (r : render) (env : uploadEnv) (w : world) :
  isAuthenticated r = true → is_Some (user r) →
  ∃ w1 w2,
    disableSync w = (Returned Result.ok, w1) ∧
    (syncState r = state w1 →
     autoEnableEffect r env w1 = (Returned (), w2) ∧
     SyncState.isEnabled (state w2) = true ∧
     localStorage w2 !! "convex_sync_enabled" = Some "true" ∧
     calls w2 = calls w1).
Proof.
  intros Ha [u Hu].
  assert (∃ w1, disableSync w = (Returned Result.ok, w1) ∧
                state w1 = SyncState.initial) as (w1 & Hd & Hst).
  { eexists. split; [reflexivity|]. done. }
  destruct (enableSync_returns r env w1 u Hu Ha) as (w2 & Hen).
  exists w1, w2. split; [exact Hd|]. intros Hr.
  assert (SyncState.isEnabled (syncState r) = false) as He
    by by rewrite Hr, Hst.
  assert (SyncState.isSyncing (syncState r) = false) as Hs
    by by rewrite Hr, Hst.
  unfold autoEnableEffect. rewrite Ha, He, Hs. simpl.
  unfold mbind, action_bind. rewrite Hen. split; [done|].
  unfold enableSync in Hen. rewrite Hu, Ha in Hen.
  unfold syncToConvex in Hen. rewrite Hu, Ha, He in Hen. run.
  injection Hen as <-. simpl. by rewrite lookup_insert_eq.
Qed.

Lemma syncFromConvex_no_mutation (r : render) (password : option string)
    (envE : uploadEnv) (envD : downloadEnv) (w : world) :
  SyncState.isEnabled (syncState r) = true →
  ∃ res w' new, syncFromConvex r password envE envD w = (Returned res, w') ∧
                calls w' = calls w ++ new ∧
                Forall (λ c, isMutation c = false) new.
Proof.
  intros He. unfold syncFromConvex. rewrite He.
  destruct (user r) as [u|].
  2:{ exists (Result.fail "User not authenticated"), w, [].
      split; [done|]. split; [by rewrite app_nil_r|]. constructor. }
  destruct (isAuthenticated r).
  2:{ exists (Result.fail "User not authenticated"), w, [].
      split; [done|]. split; [by rewrite app_nil_r|]. constructor. }
  simpl. unfold importData. run.
  destruct (getLatestWalletData r) as [latest|]; simpl.
  2:{ do 3 eexists. split; [reflexivity|]. simpl.
      split; [symmetry; apply app_nil_r|]. constructor. }
  rewrite decryptWalletData_decrypted.
  destruct (decrypted u _ _) as [remoteData|]; simpl.
  2:{ do 3 eexists. split; [reflexivity|]. simpl.
      split; [symmetry; apply app_nil_r|]. constructor. }
  destruct (mergeWalletData _ remoteData) as [mres|]; simpl.
  2:{ do 3 eexists. split; [reflexivity|]. simpl.
      split; [symmetry; apply app_nil_r|]. constructor. }
  destruct (importAnswer envD) as [[]|msg]; simpl;
    [destruct (decide (mergeLog mres = [])); simpl|..];
    do 3 eexists; (split; [reflexivity|]); simpl;
    rewrite <- ?app_assoc; simpl; (split; [reflexivity|]);
    by repeat constructor.
Qed.

(** X20. The background poll and the download on mount never upload: one
    firing of the monitoring interval, and the mount effect of lines 77-88,
    always end and send no mutation to the remote store, whatever they
    download. A firing that finds the render paused, disabled, signed out or
    already syncing does nothing at all. *)
Theorem polling_never_uploads (r : render) (envE : uploadEnv)
    (envD : downloadEnv) (w : world) :
  (∃ w' new, monitoringTick r envE envD w = (Returned (), w') ∧
             calls w' = calls w ++ new ∧
             Forall (λ c, isMutation c = false) new ∧
             (SyncState.isEnabled (syncState r) = false ∨
              isAuthenticated r = false ∨
              SyncState.isPaused (syncState r) = true ∨
              SyncState.isSyncing (syncState r) = true → w' = w)) ∧
  (∃ w' new, autoSyncOnMount r envE envD w = (Returned (), w') ∧
             calls w' = calls w ++ new ∧
             Forall (λ c, isMutation c = false) new).
Proof.
  assert (∃ new, calls w = calls w ++ new ∧
                 Forall (λ c, isMutation c = false) new) as Hnone.
  { exists []. split; [by rewrite app_nil_r|constructor]. }
  split.
  - unfold monitoringTick.
    destruct (SyncState.isEnabled (syncState r)) eqn:He; simpl.
    2:{ destruct Hnone as (new & ? & ?). by exists w, new. }
    destruct (isAuthenticated r) eqn:Ha; simpl.
    2:{ destruct Hnone as (new & ? & ?). by exists w, new. }
    destruct (SyncState.isPaused (syncState r)) eqn:Hp; simpl.
    { destruct Hnone as (new & ? & ?). by exists w, new. }
    unfold tryCatch.
    destruct (SyncState.isSyncing (syncState r)) eqn:Hs; simpl.
    { destruct Hnone as (new & ? & ?). by exists w, new. }
    destruct (getLatestWalletData r) as [latest|]; simpl.
    2:{ destruct Hnone as (new & ? & ?). exists w, new.
        split; [done|]. split; [done|]. split; [done|].
        intros [?|[?|[?|?]]]; done. }
    unfold mbind, action_bind, getItem.
    destruct (remoteIsNewer _ _).
    2:{ destruct Hnone as (new & ? & ?). exists w, new.
        split; [done|]. split; [done|]. split; [done|].
        intros [?|[?|[?|?]]]; done. }
    destruct (syncFromConvex_no_mutation r None envE envD w He)
      as (res & w' & new & -> & Hcalls & Hnew).
    exists w', new. split; [done|]. split; [done|]. split; [done|].
    intros [?|[?|[?|?]]]; done.
  - unfold autoSyncOnMount.
    destruct (isAuthenticated r) eqn:Ha; simpl.
    2:{ destruct Hnone as (new & ? & ?). by exists w, new. }
    destruct (SyncState.isEnabled (syncState r)) eqn:He; simpl.
    2:{ destruct Hnone as (new & ? & ?). by exists w, new. }
    destruct (SyncState.isSyncing (syncState r)) eqn:Hs; simpl.
    { destruct Hnone as (new & ? & ?). by exists w, new. }
    destruct (getLatestWalletData r) as [latest|]; simpl.
    2:{ destruct Hnone as (new & ? & ?). by exists w, new. }
    unfold mbind, action_bind, getItem.
    destruct (remoteIsNewer _ _).
    2:{ destruct Hnone as (new & ? & ?). by exists w, new. }
    destruct (syncFromConvex_no_mutation r None envE envD w He)
      as (res & w' & new & -> & Hcalls & Hnew).
    by exists w', new.
Qed.

(** X21. What one device encrypts another device of the same account
    decrypts. If [encryptWalletData] resolved for a user and a passphrase,
    and the platform's [decryptData] and [JSON.parse] invert its
    [encryptData] and [JSON.stringify] on that ciphertext and that data, then
    [decryptWalletData] for any user object with the same id and email and
    the same passphrase resolves to that data, and changes nothing. *)
Theorem decryptWalletData_inverts_encryptWalletData (u u' : User.t)
    (data : snapshot) (password encrypted hash : string) (w w1 w2 : world) :
  User.id u' = User.id u → User.email u' = User.email u →
  encryptWalletData u data password w = (Returned (encrypted, hash), w1) →
  (∀ key, encryptData (JSON_stringify data) key = Some encrypted →
          decryptData encrypted key = Some (JSON_stringify data)) →
  JSON_parse (JSON_stringify data) = Some data →
  w1 = w ∧
  decryptWalletData u' encrypted password w2 = (Returned data, w2).
Proof.
  intros Hid Hemail Henc Hdec Hparse.
  rewrite decryptWalletData_decrypted. unfold decrypted. rewrite Hid, Hemail.
  unfold encryptWalletData in Henc. run.
  destruct (deriveKeyFromPin _ _) as [key|]; simpl in *; [|done].
  destruct (encryptData _ key) as [enc|] eqn:He; simpl in *; [|done].
  destruct (generateIntegrityHash _) as [h|]; simpl in *; [|done].
  injection Henc as -> -> ->. split; [done|].
  rewrite (Hdec key He). simpl. by rewrite Hparse.
Qed.

End OrchestratorFurther.

Lemma enableSync_enables_witness :
  ∃ w', @enableSync samplePlatform
          (Render (Some sampleUser) true false SyncState.initial sampleWallet None)
          rejectedUpload (World SyncState.initial ∅ [])
        = (Returned Result.ok, w') ∧
        calls w' = [] ∧
        localStorage w' = <["convex_sync_enabled" := "true"]> ∅ ∧
        state w' = SyncState.mk true false false None None.
Proof.
  destruct (@enableSync_enables samplePlatform
              (Render (Some sampleUser) true false SyncState.initial
                      sampleWallet None)
              rejectedUpload (World SyncState.initial ∅ []))
    as (res & w' & Hrun & _ & Hok).
  destruct (Hok eq_refl (ex_intro _ sampleUser eq_refl))
    as (-> & _ & _ & _ & Hdisabled).
  exists w'. split; [exact Hrun|]. exact (Hdisabled eq_refl).
Defined.

Lemma syncToConvex_success_witness :
  ∃ res w',
    @syncToConvex samplePlatform sampleRender None sampleUpload sampleWorld
      = (Returned res, w') ∧
    Result.success res = true ∧
    calls w' = [StoreWalletData "u1" "device_1" "{}" "{}";
                UpdateSyncMetadata "u1" "device_1" "Chrome on Linux"] ∧
    state w' = SyncState.mk true false false (Some 100) None.
Proof.
  destruct (@syncToConvex_calls samplePlatform sampleRender None sampleUpload
              sampleWorld) as (res & w' & new & Hrun & _).
  assert (Result.success
            (match (@syncToConvex samplePlatform sampleRender None
                      sampleUpload sampleWorld).1 with
             | Returned res => res
             | Thrown _ => Result.fail ""
             end) = true) as Hres
    by (vm_compute; reflexivity).
  assert (calls (@syncToConvex samplePlatform sampleRender None sampleUpload
                   sampleWorld).2
          = [StoreWalletData "u1" "device_1" "{}" "{}";
             UpdateSyncMetadata "u1" "device_1" "Chrome on Linux"]) as Hcalls
    by (vm_compute; reflexivity).
  rewrite Hrun in Hres, Hcalls. simpl in Hres, Hcalls.
  exists res, w'. split; [exact Hrun|]. split; [exact Hres|].
  split; [exact Hcalls|].
  destruct (@syncToConvex_success samplePlatform sampleRender None sampleUpload
              sampleWorld res w' Hrun Hres)
    as (u & l & key & enc & h & dId & dName & _ & _ & _ & _ & _ & _ & _ & _
        & _ & Hstate).
  exact Hstate.
Defined.

Lemma syncFromConvex_no_remote_data_witness :
  ∃ w', @syncFromConvex samplePlatform noRemoteRender None sampleUpload
          sampleDownload sampleWorld
        = (Returned (Result.mk true None (Some "No remote data to sync") None),
           w') ∧
        calls w' = calls sampleWorld ∧
        localStorage w' = localStorage sampleWorld ∧
        state w' = SyncState.mk true false false None None.
Proof.
  apply (@syncFromConvex_no_remote_data samplePlatform noRemoteRender None
           sampleUpload sampleDownload sampleWorld sampleUser); reflexivity.
Defined.

Lemma syncFromConvex_fails_before_import_witness :
  ∃ message w',
    @syncFromConvex samplePlatform brokenDisabledRender None sampleUpload
      sampleDownload disabledWorld
      = (Returned (Result.fail message), w') ∧
    (message = "Decryption failed" ∨ message = typeError) ∧
    calls w' = [] ∧
    localStorage w' = <["convex_sync_enabled" := "true"]> ∅ ∧
    state w' = SyncState.mk true false false None (Some message).
Proof.
  apply (@syncFromConvex_fails_before_import samplePlatform
           brokenDisabledRender None sampleUpload sampleDownload disabledWorld
           sampleUser (Remote.mk "cipher" (Some 200))); reflexivity.
Defined.

Lemma syncFromConvex_import_failure_witness :
  ∃ w' title,
    @syncFromConvex samplePlatform disabledRender None sampleUpload
      refusedImport disabledWorld
      = (Returned (Result.fail "Import failed"), w') ∧
    calls w' = [] ++ [ImportData sampleMerged; Toast title] ∧
    localStorage w' = <["convex_sync_enabled" := "true"]> ∅ ∧
    state w' = SyncState.mk true false true None None.
Proof.
  apply (@syncFromConvex_import_failure samplePlatform disabledRender None
           sampleUpload refusedImport disabledWorld sampleUser
           (Remote.mk "cipher" (Some 200)) remoteA sampleMergeResult);
    try reflexivity.
  intros H. discriminate H.
Defined.

Lemma syncFromConvex_success_witness :
  ∃ w',
    @syncFromConvex samplePlatform disabledRender None sampleUpload
      sampleDownload disabledWorld
      = (Returned (Result.mk true None None (Some sampleMergeResult)), w') ∧
    calls w' = [] ++ ImportData sampleMerged
                 :: (if decide (mergeLog sampleMergeResult = []) then []
                     else [Toast "Smart Sync Complete"]) ∧
    localStorage w'
      = <["convex_last_sync_time" := @toString samplePlatform 120]>
          (<["convex_sync_enabled" := "true"]> ∅) ∧
    state w' = SyncState.mk true false false (Some 120) None.
Proof.
  apply (@syncFromConvex_success samplePlatform disabledRender None
           sampleUpload sampleDownload disabledWorld sampleUser
           (Remote.mk "cipher" (Some 200)) remoteA sampleMergeResult);
    reflexivity.
Defined.

Lemma syncFromConvex_results_witness :
  ∃ res w',
    @syncFromConvex samplePlatform
      (Render None false false SyncState.initial sampleWallet None) None
      sampleUpload sampleDownload sampleWorld = (Returned res, w') ∧
    res = Result.fail "User not authenticated" ∧ w' = sampleWorld.
Proof.
  destruct (@syncFromConvex_results samplePlatform
              (Render None false false SyncState.initial sampleWallet None)
              None sampleUpload sampleDownload sampleWorld)
    as (res & w' & Hrun & Hauth & Hsame & _).
  exists res, w'. split; [exact Hrun|].
  assert (res = Result.fail "User not authenticated") as Hres.
  { apply Hauth. left. reflexivity. }
  split; [exact Hres|exact (Hsame Hres)].
Defined.

Lemma getDeviceInfo_persists_witness :
  ∃ deviceId deviceName w1,
    getDeviceInfo sampleUpload sampleWorld
      = (Returned (deviceId, deviceName), w1) ∧
    deviceId ≠ "" ∧ deviceName ≠ "" ∧
    getDeviceInfo rejectedUpload w1 = (Returned (deviceId, deviceName), w1).
Proof.
  apply (getDeviceInfo_persists sampleUpload rejectedUpload sampleWorld).
  intros H. discriminate H.
Defined.

Lemma getDeviceInfo_label_order_witness :
  ∃ deviceId browser os w',
    getDeviceInfo androidPhone sampleWorld
      = (Returned (deviceId, browser +:+ " on " +:+ os), w') ∧
    browser = "Chrome" ∧ os = "Linux".
Proof.
  destruct (getDeviceInfo_label_order androidPhone sampleWorld eq_refl)
    as (d & browser & os & w' & Hrun & Hchrome & _ & Hlinux & _).
  exists d, browser, os, w'. split; [exact Hrun|]. split.
  - apply Hchrome. vm_compute. reflexivity.
  - apply Hlinux; vm_compute; reflexivity.
Defined.

Lemma disableSync_then_autoEnable_witness :
  ∃ w1 w2,
    disableSync pausedWorld = (Returned Result.ok, w1) ∧
    @autoEnableEffect samplePlatform signedInAfterDisable sampleUpload w1
      = (Returned (), w2) ∧
    SyncState.isEnabled (state w2) = true ∧
    localStorage w2 !! "convex_sync_enabled" = Some "true" ∧
    calls w2 = calls w1.
Proof.
  destruct (@disableSync_then_autoEnable samplePlatform signedInAfterDisable
              sampleUpload pausedWorld eq_refl
              (ex_intro _ sampleUser eq_refl))
    as (w1 & w2 & Hd & Hen).
  exists w1, w2. split; [exact Hd|]. apply Hen.
  assert ((disableSync pausedWorld).2 = w1) as <- by by rewrite Hd.
  reflexivity.
Defined.

Lemma decryptWalletData_inverts_encryptWalletData_witness :
  @decryptWalletData echoPlatform (User.mk "u1" "ann@example.org" "Ann's phone")
     "{}" "pin" sampleWorld
  = (Returned sampleMerged, sampleWorld).
Proof.
  apply (@decryptWalletData_inverts_encryptWalletData echoPlatform sampleUser
           (User.mk "u1" "ann@example.org" "Ann's phone") sampleMerged "pin"
           "{}" "{}" sampleWorld sampleWorld sampleWorld);
    reflexivity.
Defined.
